(** * business-object-search: the rule-repository core

    A shallow embedding of [config.py], [business_object_search/models.py]
    and [business_object_search/db.py].

    - Python values that reach the code are a small inductive [pyvalue].
    - A Python exception is a value of [exn]; a call either returns or
      raises, and in both cases leaves a new [world] behind.
    - The mutable state a call can see (the [Neo4jDatabase] singleton, the
      driver and session objects of the neo4j client, the log and the graph
      store itself) is one record [world], threaded through a state and
      exception monad [M].
    - What the neo4j client and server do (creating a driver, answering a
      query) is not code of this repository: it is the class [Neo4jClient]
      with its members [driver_error] and [server_run].
    - [str.lower] belongs to the Python runtime: it is the section variable
      [lower] of the validators. *)

From stdpp Require Import base list strings.
From Stdlib Require Import ZArith String Ascii List Bool Lia.
Import ListNotations.
Open Scope string_scope.

(** ** Python values, dictionaries, exceptions *)

Inductive pyvalue : Type :=
| PNone
| PBool (b : bool)
| PInt (z : Z)
| PStr (s : string).

(** [v != 1] as Python compares: [True == 1], an [int] by value, anything
    else differs from [1]. *)
Definition py_ne_1 (v : pyvalue) : bool :=
  match v with
  | PInt z => negb (z =? 1)%Z
  | PBool b => negb b
  | _ => true
  end.

(** A [dict] with string keys, in insertion order. *)
Definition pydict := list (string * pyvalue).

Fixpoint dict_set (k : string) (v : pyvalue) (d : pydict) : pydict :=
  match d with
  | [] => [(k, v)]
  | (k', v') :: d' =>
      if String.eqb k k' then (k, v) :: d' else (k', v') :: dict_set k v d'
  end.

Fixpoint dict_get (k : string) (d : pydict) : option pyvalue :=
  match d with
  | [] => None
  | (k', v') :: d' => if String.eqb k k' then Some v' else dict_get k d'
  end.

(** [params or {}]: [None] and the empty dict are both falsy. *)
Definition or_empty (params : option pydict) : pydict :=
  match params with
  | Some (kv :: rest) => kv :: rest
  | Some [] => []
  | None => []
  end.

(** The exception classes the code names or can meet.  [ClientError] stands
    for the store's refusals (syntax, privilege), [OtherError cls msg] for
    any other subclass of [Exception], [KeyboardInterrupt] for what
    [except Exception] does not catch. *)
Inductive exn : Type :=
| ServiceUnavailable (msg : string)
| AuthError (msg : string)
| ClientError (msg : string)
| ResultConsumedError (msg : string)
| SessionError (msg : string)
| ValueError (msg : string)
| TypeError (msg : string)
| KeyError (key : string)
| OtherError (cls msg : string)
| KeyboardInterrupt.

Definition exn_class (e : exn) : string :=
  match e with
  | ServiceUnavailable _ => "ServiceUnavailable"
  | AuthError _ => "AuthError"
  | ClientError _ => "ClientError"
  | ResultConsumedError _ => "ResultConsumedError"
  | SessionError _ => "SessionError"
  | ValueError _ => "ValueError"
  | TypeError _ => "TypeError"
  | KeyError _ => "KeyError"
  | OtherError cls _ => cls
  | KeyboardInterrupt => "KeyboardInterrupt"
  end.

(** [str(e)] *)
Definition exn_str (e : exn) : string :=
  match e with
  | ServiceUnavailable m | AuthError m | ClientError m
  | ResultConsumedError m | SessionError m
  | ValueError m | TypeError m | OtherError _ m => m
  | KeyError k => "'" ++ k ++ "'"
  | KeyboardInterrupt => ""
  end.

(** [except (ServiceUnavailable, AuthError)] *)
Definition is_ServiceUnavailable_or_AuthError (e : exn) : bool :=
  match e with
  | ServiceUnavailable _ | AuthError _ => true
  | _ => false
  end.

(** [except Exception] *)
Definition is_Exception (e : exn) : bool :=
  match e with
  | KeyboardInterrupt => false
  | _ => true
  end.

(** What a call does: it returns a value or raises. *)
Inductive outcome (A : Type) : Type :=
| Return (a : A)
| Raise (e : exn).
Arguments Return {A} a.
Arguments Raise {A} e.

(** ** [config.py] *)

Module config.

Definition RULE_CATEGORIES : list string :=
  ["data"; "validation"; "calculation"; "process"; "reporting"; "compliance"].

Definition OBLIGATION_LEVELS : list string :=
  ["mandatory"; "conditional"; "optional"].

End config.

(** ** [models.py] *)

(** [str(xs)] for a list of plain words: ['a', 'b']. *)
Definition str_of_list (xs : list string) : string :=
  "[" ++ String.concat ", " (map (fun s => "'" ++ s ++ "'") xs) ++ "]".

(** Lower-casing of the ASCII letters, the instance of [str.lower] that the
    examples run. *)
Definition ascii_lower_char (c : ascii) : ascii :=
  let n := nat_of_ascii c in
  if (65 <=? n)%nat && (n <=? 90)%nat then ascii_of_nat (n + 32) else c.

Fixpoint ascii_lower (s : string) : string :=
  match s with
  | EmptyString => EmptyString
  | String c s' => String (ascii_lower_char c) (ascii_lower s')
  end.

Inductive RuleCategory : Type :=
| DATA | VALIDATION | CALCULATION | PROCESS | REPORTING | COMPLIANCE.

Definition RuleCategory_value (c : RuleCategory) : string :=
  match c with
  | DATA => "data"
  | VALIDATION => "validation"
  | CALCULATION => "calculation"
  | PROCESS => "process"
  | REPORTING => "reporting"
  | COMPLIANCE => "compliance"
  end.

Inductive ObligationLevel : Type :=
| MANDATORY | CONDITIONAL | OPTIONAL.

Definition ObligationLevel_value (o : ObligationLevel) : string :=
  match o with
  | MANDATORY => "mandatory"
  | CONDITIONAL => "conditional"
  | OPTIONAL => "optional"
  end.

(** Lookup of an enumeration member by value, as the field's type does after
    the [pre=True] validator has run. *)
Definition RuleCategory_of_value (s : string) : option RuleCategory :=
  find (fun c => String.eqb (RuleCategory_value c) s)
       [DATA; VALIDATION; CALCULATION; PROCESS; REPORTING; COMPLIANCE].

Definition ObligationLevel_of_value (s : string) : option ObligationLevel :=
  find (fun o => String.eqb (ObligationLevel_value o) s)
       [MANDATORY; CONDITIONAL; OPTIONAL].

Section Validators.

(** [str.lower] of the Python runtime. *)
Variable lower : string -> string.

(** [v.lower() not in [x.lower() for x in allowed]] *)
Definition lower_not_in (v : string) (allowed : list string) : bool :=
  negb (existsb (String.eqb (lower v)) (map lower allowed)).

(** [for x in allowed: if v.lower() == x.lower(): return x] *)
Fixpoint standardized_case (v : string) (allowed : list string) : option string :=
  match allowed with
  | [] => None
  | x :: rest =>
      if String.eqb (lower v) (lower x) then Some x
      else standardized_case v rest
  end.

End Validators.

Module RuleBase.
Section WithLower.
Variable lower : string -> string.

(** [@validator('category', pre=True)] *)
Definition validate_category (v : pyvalue) : outcome pyvalue :=
  match v with
  | PStr s =>
      if lower_not_in lower s config.RULE_CATEGORIES then
        Raise (ValueError ("Invalid category: " ++ s ++ ". Must be one of "
                           ++ str_of_list config.RULE_CATEGORIES))
      else
        match standardized_case lower s config.RULE_CATEGORIES with
        | Some cat => Return (PStr cat)
        | None => Return v
        end
  | _ => Return v
  end.

(** [@validator('obligation_level', pre=True)] *)
Definition validate_obligation_level (v : pyvalue) : outcome pyvalue :=
  match v with
  | PStr s =>
      if lower_not_in lower s config.OBLIGATION_LEVELS then
        Raise (ValueError ("Invalid obligation level: " ++ s ++ ". Must be one of "
                           ++ str_of_list config.OBLIGATION_LEVELS))
      else
        match standardized_case lower s config.OBLIGATION_LEVELS with
        | Some level => Return (PStr level)
        | None => Return v
        end
  | _ => Return v
  end.

End WithLower.
End RuleBase.

(** A [datetime.date]. *)
Record date : Type := mk_date { year : Z; month : Z; day : Z }.

Module Rule.

(** [Rule(RuleBase)]: the fields of [RuleBase], then its own. *)
Record Rule : Type := mk {
  name : string;
  description : string;
  category : RuleCategory;
  obligation_level : ObligationLevel;
  data_elements : list string;
  conditions : list string;
  actions : list string;
  exceptions : list string;
  thresholds : list string;
  validation_logic : option string;
  source_reference : option string;
  effective_date : option date;
  related_rules : list string;
  rule_id : string;
  created_at : option date;
  updated_at : option date
}.

End Rule.

Module RuleUpdate.

(** Every field is [Optional[...] = None]. *)
Record RuleUpdate : Type := mk {
  name : option string;
  description : option string;
  category : option RuleCategory;
  obligation_level : option ObligationLevel;
  data_elements : option (list string);
  conditions : option (list string);
  actions : option (list string);
  exceptions : option (list string);
  thresholds : option (list string);
  validation_logic : option string;
  source_reference : option string;
  effective_date : option date;
  related_rules : option (list string)
}.

Section WithLower.
Variable lower : string -> string.

(** [@validator('category', pre=True)], with its [if v is None] guard. *)
Definition validate_category (v : pyvalue) : outcome pyvalue :=
  match v with
  | PNone => Return v
  | PStr s =>
      if lower_not_in lower s config.RULE_CATEGORIES then
        Raise (ValueError ("Invalid category: " ++ s ++ ". Must be one of "
                           ++ str_of_list config.RULE_CATEGORIES))
      else
        match standardized_case lower s config.RULE_CATEGORIES with
        | Some cat => Return (PStr cat)
        | None => Return v
        end
  | _ => Return v
  end.

(** [@validator('obligation_level', pre=True)], with its [if v is None]
    guard. *)
Definition validate_obligation_level (v : pyvalue) : outcome pyvalue :=
  match v with
  | PNone => Return v
  | PStr s =>
      if lower_not_in lower s config.OBLIGATION_LEVELS then
        Raise (ValueError ("Invalid obligation level: " ++ s ++ ". Must be one of "
                           ++ str_of_list config.OBLIGATION_LEVELS))
      else
        match standardized_case lower s config.OBLIGATION_LEVELS with
        | Some level => Return (PStr level)
        | None => Return v
        end
  | _ => Return v
  end.

End WithLower.
End RuleUpdate.

(** Modelled from the spec: the repository's [update] operation, which is
    not among the source files.  "A Rule is [...] mutated in place by an
    update operation that accepts a partial record (only present fields
    overwrite)"; "absent fields are left untouched in storage and must not be
    misinterpreted as clear this field". *)
Definition overwrite {A : Type} (present : option A) (stored : A) : A :=
  match present with
  | Some x => x
  | None => stored
  end.

(** Modelled from the spec: as [overwrite], for a stored field that is
    itself optional. *)
Definition overwrite_optional {A : Type} (present : option A) (stored : option A)
  : option A :=
  match present with
  | Some x => Some x
  | None => stored
  end.

(** Modelled from the spec: the [update] operation on one stored Rule. *)
Definition apply_update (u : RuleUpdate.RuleUpdate) (r : Rule.Rule) : Rule.Rule :=
  Rule.mk
    (overwrite (RuleUpdate.name u) (Rule.name r))
    (overwrite (RuleUpdate.description u) (Rule.description r))
    (overwrite (RuleUpdate.category u) (Rule.category r))
    (overwrite (RuleUpdate.obligation_level u) (Rule.obligation_level r))
    (overwrite (RuleUpdate.data_elements u) (Rule.data_elements r))
    (overwrite (RuleUpdate.conditions u) (Rule.conditions r))
    (overwrite (RuleUpdate.actions u) (Rule.actions r))
    (overwrite (RuleUpdate.exceptions u) (Rule.exceptions r))
    (overwrite (RuleUpdate.thresholds u) (Rule.thresholds r))
    (overwrite_optional (RuleUpdate.validation_logic u) (Rule.validation_logic r))
    (overwrite_optional (RuleUpdate.source_reference u) (Rule.source_reference r))
    (overwrite_optional (RuleUpdate.effective_date u) (Rule.effective_date r))
    (overwrite (RuleUpdate.related_rules u) (Rule.related_rules r))
    (Rule.rule_id r)
    (Rule.created_at r)
    (Rule.updated_at r).

(** ** [config.py]: the connection settings *)

Module settings.
Section FromEnvironment.
(** [os.getenv(name)] of the process. *)
Variable environ : string -> option string.

Definition getenv (name default : string) : string :=
  match environ name with Some v => v | None => default end.

Definition NEO4J_URI : string := getenv "NEO4J_URI" "bolt://localhost:7687".
Definition NEO4J_USER : string := getenv "NEO4J_USER" "neo4j".
Definition NEO4J_PASSWORD : string := getenv "NEO4J_PASSWORD" "password".
Definition NEO4J_DATABASE : string := getenv "NEO4J_DATABASE" "neo4j".
End FromEnvironment.
End settings.

(** ** [db.py]: objects *)

(** A driver or session object is known by its identity: the index at which
    it was allocated. *)
Definition Driver := nat.
Definition Session := nat.

Record driver_obj : Type := mk_driver {
  d_uri : string;
  d_user : string;
  d_password : string;
  d_open : bool
}.

Record session_obj : Type := mk_session {
  s_driver : Driver;
  s_database : string;
  s_open : bool
}.

(** A [neo4j.Record]: the columns of one row, in order. *)
Definition Neo4jRecord := list (string * pyvalue).

(** A [neo4j.Result]: the rows a query produced, readable while the session
    that ran it is open. *)
Record Result : Type := mk_result {
  r_session : Session;
  r_records : list Neo4jRecord
}.

(** [bool(record)]: a record is a tuple, truthy when it has a column. *)
Definition record_truthy (r : Neo4jRecord) : bool :=
  negb (Nat.eqb (length r) 0).

(** [record.data()] *)
Definition record_data (r : Neo4jRecord) : pydict :=
  fold_left (fun d kv => dict_set (fst kv) (snd kv) d) r [].

Inductive log_level : Type := INFO | ERROR.

(** The [Neo4jDatabase] instance. *)
Record Neo4jDatabase : Type := mk_db {
  _initialized : bool;
  uri : string;
  user : string;
  password : string;
  database : string;
  _driver : option Driver
}.

(** [__new__]: [cls._instance] holds the one instance, if any; a new one
    starts with [_initialized = False] and no other attribute (the strings
    are placeholders until [__init__] assigns them). *)
Definition Neo4jDatabase_new (_instance : option Neo4jDatabase) : Neo4jDatabase :=
  match _instance with
  | None => mk_db false "" "" "" "" None
  | Some o => o
  end.

(** [__init__], given the four settings of [config]. *)
Definition Neo4jDatabase_init (cfg_uri cfg_user cfg_password cfg_database : string)
           (self : Neo4jDatabase) : Neo4jDatabase :=
  if _initialized self then self
  else mk_db true cfg_uri cfg_user cfg_password cfg_database None.

(** [Neo4jDatabase()]: [__new__], then [__init__] on what it returned; the
    result is also the new value of [cls._instance]. *)
Definition Neo4jDatabase_call (cfg_uri cfg_user cfg_password cfg_database : string)
           (_instance : option Neo4jDatabase) : Neo4jDatabase :=
  Neo4jDatabase_init cfg_uri cfg_user cfg_password cfg_database
                     (Neo4jDatabase_new _instance).

(** The neo4j client and the server behind it, as far as the code uses
    them, over the states [Store] of the graph store. *)
Class Neo4jClient (Store : Type) : Type := {
  (** [GraphDatabase.driver(uri, auth=(user, password))] raises this, or
      returns a new driver. *)
  driver_error : string -> string -> string -> option exn;
  (** What the store answers to a query sent over a driver, for a logical
      database, with its parameters: rows or an exception, and its next
      state. *)
  server_run :
    driver_obj -> string -> string -> pydict -> Store ->
    outcome (list Neo4jRecord) * Store
}.

Section Neo4j.

(** The state of the graph store, and the client. *)
Context {Store : Type} {client : Neo4jClient Store}.

(** Everything a call can read or change. *)
Record world : Type := mk_world {
  self : Neo4jDatabase;
  drivers : list driver_obj;
  sessions : list session_obj;
  log : list (log_level * string);
  store : Store
}.

(** *** The monad of calls *)

Definition M (A : Type) : Type := world -> outcome A * world.

Definition ret {A} (a : A) : M A := fun w => (Return a, w).

Definition raise {A} (e : exn) : M A := fun w => (Raise e, w).

Definition bind {A B} (m : M A) (k : A -> M B) : M B :=
  fun w =>
    match m w with
    | (Return a, w1) => k a w1
    | (Raise e, w1) => (Raise e, w1)
    end.

(** [try: m finally: f] *)
Definition try_finally {A} (m : M A) (f : M unit) : M A :=
  fun w =>
    match m w with
    | (r, w1) =>
        match f w1 with
        | (Return _, w2) => (r, w2)
        | (Raise e, w2) => (Raise e, w2)
        end
    end.

(** [try: m except ... as e: handler e]; [handler e = None] when no
    [except] clause matches [e]. *)
Definition try_except {A} (m : M A) (handler : exn -> option (M A)) : M A :=
  fun w =>
    match m w with
    | (Return a, w1) => (Return a, w1)
    | (Raise e, w1) =>
        match handler e with
        | Some k => k w1
        | None => (Raise e, w1)
        end
    end.

Notation "x <- m ;; k" := (bind m (fun x => k))
  (at level 100, m at next level, right associativity).
Notation "m ;;; k" := (bind m (fun _ => k))
  (at level 100, right associativity).

(** *** The world's fields, written *)

Definition set_self (o : Neo4jDatabase) (w : world) : world :=
  mk_world o (drivers w) (sessions w) (log w) (store w).

Definition set_drivers (ds : list driver_obj) (w : world) : world :=
  mk_world (self w) ds (sessions w) (log w) (store w).

Definition set_sessions (ss : list session_obj) (w : world) : world :=
  mk_world (self w) (drivers w) ss (log w) (store w).

Definition set_log (l : list (log_level * string)) (w : world) : world :=
  mk_world (self w) (drivers w) (sessions w) l (store w).

Definition set_store (st : Store) (w : world) : world :=
  mk_world (self w) (drivers w) (sessions w) (log w) st.

(** The world in which a session on driver [d] has just been opened. *)
Definition with_new_session (d : Driver) (w : world) : world :=
  set_sessions (sessions w ++ [mk_session d (database (self w)) true]) w.

(** The same world once that session is closed. *)
Definition with_closed_session (d : Driver) (w : world) : world :=
  set_sessions (sessions w ++ [mk_session d (database (self w)) false]) w.

(** The world in which a driver has just been created from the instance's
    settings and assigned to [self._driver]. *)
Definition with_new_driver (w : world) : world :=
  let o := self w in
  set_self (mk_db (_initialized o) (uri o) (user o) (password o) (database o)
                  (Some (length (drivers w))))
           (set_drivers (drivers w ++ [mk_driver (uri o) (user o) (password o) true]) w).

(** *** What the code calls *)

Definition get_self : M Neo4jDatabase := fun w => (Return (self w), w).

(** [self._driver = v] *)
Definition assign_driver (v : option Driver) : M unit :=
  fun w =>
    let o := self w in
    (Return tt,
     set_self (mk_db (_initialized o) (uri o) (user o) (password o) (database o) v) w).

Definition logger_info (msg : string) : M unit :=
  fun w => (Return tt, set_log (log w ++ [(INFO, msg)]) w).

Definition logger_error (msg : string) : M unit :=
  fun w => (Return tt, set_log (log w ++ [(ERROR, msg)]) w).

(** [GraphDatabase.driver(uri, auth=(user, password))] *)
Definition GraphDatabase_driver (u usr pwd : string) : M Driver :=
  fun w =>
    match driver_error u usr pwd with
    | Some e => (Raise e, w)
    | None =>
        (Return (length (drivers w)),
         set_drivers (drivers w ++ [mk_driver u usr pwd true]) w)
    end.

(** [driver.close()] *)
Definition driver_close (d : Driver) : M unit :=
  fun w =>
    (Return tt,
     set_drivers
       (alter (fun o => mk_driver (d_uri o) (d_user o) (d_password o) false)
              d (drivers w)) w).

(** [driver.session(database=db)] *)
Definition driver_session (d : Driver) (db : string) : M Session :=
  fun w =>
    (Return (length (sessions w)),
     set_sessions (sessions w ++ [mk_session d db true]) w).

(** [session.close()] *)
Definition session_close (s : Session) : M unit :=
  fun w =>
    (Return tt,
     set_sessions
       (alter (fun o => mk_session (s_driver o) (s_database o) false)
              s (sessions w)) w).

Definition session_is_open (s : Session) (w : world) : bool :=
  match sessions w !! s with
  | Some o => s_open o
  | None => false
  end.

Definition driver_is_open (d : Driver) (w : world) : bool :=
  match drivers w !! d with
  | Some o => d_open o
  | None => false
  end.

(** [session.run(query, params)]: the query goes to the store over the
    session's driver. *)
Definition session_run (s : Session) (query : string) (params : pydict) : M Result :=
  fun w =>
    match sessions w !! s with
    | Some so =>
        if s_open so then
          match drivers w !! s_driver so with
          | Some dr =>
              match server_run dr (s_database so) query params (store w) with
              | (Return rows, st) => (Return (mk_result s rows), set_store st w)
              | (Raise e, st) => (Raise e, set_store st w)
              end
          | None => (Raise (SessionError "no driver"), w)
          end
        else (Raise (SessionError "Session closed"), w)
    | None => (Raise (SessionError "no session"), w)
    end.

(** The rows of a result can be read while its session is open. *)
Definition result_records (r : Result) : M (list Neo4jRecord) :=
  fun w =>
    if session_is_open (r_session r) w then (Return (r_records r), w)
    else (Raise (ResultConsumedError "The result is out of scope."), w).

(** [result.single()]: no row gives [None]; otherwise the first row (the
    client warns when there are more). *)
Definition result_single (r : Result) : M (option Neo4jRecord) :=
  rows <- result_records r ;;
  ret (head rows).

(** [record[key]], where [record] may be [None]. *)
Definition getitem (record : option Neo4jRecord) (key : string) : M pyvalue :=
  match record with
  | None => raise (TypeError "'NoneType' object is not subscriptable")
  | Some r =>
      match dict_get key r with
      | Some v => ret v
      | None => raise (KeyError key)
      end
  end.

(** *** [Neo4jDatabase]'s methods *)

(** The [with self._driver.session(...)] block of [connect]: the probe. *)
Definition connection_test (d : Driver) : M unit :=
  o <- get_self ;;
  session <- driver_session d (database o) ;;
  try_finally
    (result <- session_run session "RETURN 1 AS test" [] ;;
     record <- result_single result ;;
     test_value <- getitem record "test" ;;
     if py_ne_1 test_value
     then raise (ServiceUnavailable "Database connection test failed")
     else logger_info ("Connected to Neo4j at " ++ uri o))
    (session_close session).

(** [except (ServiceUnavailable, AuthError) as e: logger.error(...); raise] *)
Definition connect_except {A} (e : exn) : option (M A) :=
  if is_ServiceUnavailable_or_AuthError e
  then Some (logger_error ("Failed to connect to Neo4j: " ++ exn_str e) ;;;
             raise e)
  else None.

Definition connect : M Driver :=
  try_except
    (o <- get_self ;;
     match _driver o with
     | Some d => ret d
     | None =>
         d <- GraphDatabase_driver (uri o) (user o) (password o) ;;
         assign_driver (Some d) ;;;
         connection_test d ;;;
         ret d
     end)
    connect_except.

(** What the [except] clause of [connect] amounts to: the exception is
    logged when the clause catches it, and raised again either way. *)
Definition connect_raises (e : exn) (w : world) : outcome Driver * world :=
  if is_ServiceUnavailable_or_AuthError e
  then (Raise e, set_log (log w ++ [(ERROR, "Failed to connect to Neo4j: " ++ exn_str e)]) w)
  else (Raise e, w).

Definition close : M unit :=
  o <- get_self ;;
  match _driver o with
  | Some d =>
      driver_close d ;;;
      assign_driver None ;;;
      logger_info "Closed Neo4j connection"
  | None => ret tt
  end.

(** [with self.get_session() as session: body session] *)
Definition get_session {A} (body : Session -> M A) : M A :=
  driver <- connect ;;
  o <- get_self ;;
  session <- driver_session driver (database o) ;;
  try_finally (body session) (session_close session).

Definition execute_query (query : string) (params : option pydict) : M Result :=
  get_session (fun session => session_run session query (or_empty params)).

Definition fetch_all (query : string) (params : option pydict) : M (list pydict) :=
  get_session (fun session =>
    result <- session_run session query (or_empty params) ;;
    records <- result_records result ;;
    ret (map record_data records)).

Definition fetch_one (query : string) (params : option pydict) : M (option pydict) :=
  get_session (fun session =>
    result <- session_run session query (or_empty params) ;;
    record <- result_single result ;;
    ret (match record with
         | Some r => if record_truthy r then Some (record_data r) else None
         | None => None
         end)).

Definition constraints : list string :=
  ["CREATE CONSTRAINT rule_id IF NOT EXISTS FOR (r:Rule) REQUIRE r.rule_id IS UNIQUE";
   "CREATE CONSTRAINT data_element_id IF NOT EXISTS FOR (d:DataElement) REQUIRE d.element_id IS UNIQUE";
   "CREATE CONSTRAINT category_name IF NOT EXISTS FOR (c:Category) REQUIRE c.name IS UNIQUE"].

(** The node kind and property each constraint is about, as the statements
    spell them. *)
Definition constrained_keys : list string :=
  ["(r:Rule) REQUIRE r.rule_id IS UNIQUE";
   "(d:DataElement) REQUIRE d.element_id IS UNIQUE";
   "(c:Category) REQUIRE c.name IS UNIQUE"].

(** One turn of the loop of [create_constraints]. *)
Definition apply_constraint (constraint : string) : M unit :=
  try_except
    (execute_query constraint None ;;;
     logger_info ("Applied constraint: " ++ constraint))
    (fun e =>
       if is_Exception e
       then Some (logger_error ("Failed to create constraint: " ++ exn_str e) ;;;
                  raise e)
       else None).

Fixpoint for_each_constraint (cs : list string) : M unit :=
  match cs with
  | [] => ret tt
  | constraint :: rest =>
      apply_constraint constraint ;;;
      for_each_constraint rest
  end.

Definition create_constraints : M unit := for_each_constraint constraints.

(** The statements of [cs] sent to the store one after the other over driver
    [dr], without parameters, up to the first that the store refuses: the
    exception of that one, if any, and the store's last state. *)
Fixpoint issue_all (dr : driver_obj) (db : string) (cs : list string) (st : Store)
  : option exn * Store :=
  match cs with
  | [] => (None, st)
  | c :: rest =>
      match server_run dr db c [] st with
      | (Return _, st') => issue_all dr db rest st'
      | (Raise e, st') => (Some e, st')
      end
  end.

(** What [IF NOT EXISTS] means to the store, for a reading [present st c] of
    "the constraint that statement [c] creates exists in [st]": a statement
    that goes through leaves its constraint present and drops none. *)
Definition creates_and_keeps (present : Store -> string -> Prop) : Prop :=
  forall dr db c st rows st',
    In c constraints ->
    server_run dr db c [] st = (Return rows, st') ->
    present st' c /\ (forall c', present st c' -> present st' c').

(** And a statement whose constraint is present goes through and leaves the
    store as it is. *)
Definition no_op_when_present (present : Store -> string -> Prop) : Prop :=
  forall dr db c st,
    In c constraints -> present st c ->
    exists rows, server_run dr db c [] st = (Return rows, st).

(** What a caller of [connect] holds: [return self._driver]. *)
Definition returned_driver (r : outcome Driver) : outcome (option Driver) :=
  match r with
  | Return d => Return (Some d)
  | Raise e => Raise e
  end.

(** *** [connect] called from several threads

    [connect] takes no lock, so between two of its reads and writes of
    [self._driver] another thread may run.  A call is cut at three places
    only: after the test [not self._driver], after the assignment of the
    new driver, and after the probe. *)

Inductive connect_pc : Type :=
| AtCheck
| AtCreate
| AtProbe
| AtReturn
| Finished (r : outcome (option Driver)).

(** An exception leaves [connect] through its [except] clause. *)
Definition leave_connect (e : exn) (w : world) : connect_pc * world :=
  match @connect_except Driver e with
  | Some k => (Finished (Raise e), snd (k w))
  | None => (Finished (Raise e), w)
  end.

Definition thread_step (pc : connect_pc) (w : world) : connect_pc * world :=
  match pc with
  | AtCheck =>
      match _driver (self w) with
      | Some _ => (AtReturn, w)
      | None => (AtCreate, w)
      end
  | AtCreate =>
      let o := self w in
      match (d <- GraphDatabase_driver (uri o) (user o) (password o) ;;
             assign_driver (Some d)) w with
      | (Return _, w1) => (AtProbe, w1)
      | (Raise e, w1) => leave_connect e w1
      end
  | AtProbe =>
      match _driver (self w) with
      | Some d =>
          match connection_test d w with
          | (Return _, w1) => (AtReturn, w1)
          | (Raise e, w1) => leave_connect e w1
          end
      | None =>
          leave_connect
            (OtherError "AttributeError" "'NoneType' object has no attribute 'session'") w
      end
  | AtReturn => (Finished (Return (_driver (self w))), w)
  | Finished r => (Finished r, w)
  end.


(** The scheduler lets thread [i] take one step. *)
Definition sched_step (cfg : list connect_pc * world) (i : nat)
  : list connect_pc * world :=
  match fst cfg !! i with
  | Some pc =>
      let (pc', w') := thread_step pc (snd cfg) in
      (<[i:=pc']> (fst cfg), w')
  | None => cfg
  end.

Definition run_schedule (schedule : list nat) (cfg : list connect_pc * world)
  : list connect_pc * world :=
  fold_left sched_step schedule cfg.

(** [n] calls of [connect] one after the other: what each returned, and the
    world they leave. *)
Fixpoint connect_times (n : nat) (w : world) : list (outcome Driver) * world :=
  match n with
  | O => ([], w)
  | S n' =>
      match connect w with
      | (r, w1) =>
          match connect_times n' w1 with
          | (rs, w2) => (r :: rs, w2)
          end
      end
  end.

End Neo4j.

(** [needle in haystack] for strings. *)
Fixpoint contains (needle haystack : string) : bool :=
  if String.prefix needle haystack then true
  else match haystack with
       | EmptyString => false
       | String _ rest => contains needle rest
       end.

(** ** A small graph store to run the code against *)

Module Demo.

(** What the store holds: how it answers the probe, whether the caller may
    change the schema, the uniqueness constraints created so far, and the
    rules as (rule_id, name). *)
Record store : Type := mk_store {
  probe_rows : list Neo4jRecord;
  may_alter_schema : bool;
  schema : list string;
  rules : list (string * string)
}.

Definition all_rules : string :=
  "MATCH (r:Rule) RETURN r.rule_id AS rule_id, r.name AS name".

Definition rule_by_id : string :=
  "MATCH (r:Rule {rule_id: $rule_id}) RETURN r.rule_id AS rule_id, r.name AS name".

Definition rule_row (r : string * string) : Neo4jRecord :=
  [("rule_id", PStr (fst r)); ("name", PStr (snd r))].

Definition has_id (params : pydict) (r : string * string) : bool :=
  match dict_get "rule_id" params with
  | Some (PStr i) => String.eqb i (fst r)
  | _ => false
  end.

Definition is_member (x : string) (l : list string) : bool :=
  existsb (String.eqb x) l.

(** [CREATE CONSTRAINT ... IF NOT EXISTS]: nothing happens when the
    constraint is there. *)
Definition create_if_not_exists (statement : string) (st : store) : store :=
  if is_member statement (schema st) then st
  else mk_store (probe_rows st) (may_alter_schema st)
                (schema st ++ [statement]) (rules st).

Definition server_run (dr : driver_obj) (db query : string) (params : pydict)
           (st : store) : outcome (list Neo4jRecord) * store :=
  if String.eqb query "RETURN 1 AS test" then (Return (probe_rows st), st)
  else if is_member query constraints then
    if may_alter_schema st then (Return [], create_if_not_exists query st)
    else (Raise (ClientError "Schema operations are not allowed"), st)
  else if String.eqb query all_rules then
    (Return (map rule_row (rules st)), st)
  else if String.eqb query rule_by_id then
    (Return (map rule_row (List.filter (has_id params) (rules st))), st)
  else (Raise (ClientError "Invalid input"), st).

Definition driver_error (u usr pwd : string) : option exn := None.

Definition environ (name : string) : option string := None.

(** The instance [db = Neo4jDatabase()] of a fresh process. *)
Definition db : Neo4jDatabase :=
  Neo4jDatabase_call (settings.NEO4J_URI environ) (settings.NEO4J_USER environ)
                     (settings.NEO4J_PASSWORD environ)
                     (settings.NEO4J_DATABASE environ) None.

Definition start (st : store) : @world store := mk_world db [] [] [] st.

Definition healthy : store :=
  mk_store [[("test", PInt 1)]] true []
           [("R001", "Income Validation"); ("R002", "Address Check")].

(** A store whose answer to the probe is 2. *)
Definition confused : store :=
  mk_store [[("test", PInt 2)]] true [] [].

(** A store that refuses schema changes. *)
Definition read_only : store :=
  mk_store [[("test", PInt 1)]] false [] [].

End Demo.

#[export] Instance demo_client : Neo4jClient Demo.store :=
  {| driver_error := Demo.driver_error; server_run := Demo.server_run |}.

(** The world after a first [create_constraints] on the healthy store. *)
Definition demo_constrained : @world Demo.store :=
  Eval vm_compute in snd (create_constraints (Demo.start Demo.healthy)).

(** The world after a first [connect] on the read-only store. *)
Definition demo_read_only_connected : @world Demo.store :=
  Eval vm_compute in snd (connect (Demo.start Demo.read_only)).

(** The demonstration store reads [IF NOT EXISTS] as it is meant, for a
    caller that may change the schema. *)
Definition demo_present (st : Demo.store) (c : string) : Prop :=
  Demo.may_alter_schema st = true /\ Demo.is_member c (Demo.schema st) = true.

(** The world after a first, successful [connect] on the healthy store. *)
Definition demo_connected : @world Demo.store :=
  Eval vm_compute in snd (connect (Demo.start Demo.healthy)).

(** ** Vocabulary of the further properties *)

(** The members of the two enumerations of [models.py], in the order of
    their declaration. *)
Definition RuleCategory_members : list RuleCategory :=
  [DATA; VALIDATION; CALCULATION; PROCESS; REPORTING; COMPLIANCE].

Definition ObligationLevel_members : list ObligationLevel :=
  [MANDATORY; CONDITIONAL; OPTIONAL].

(** The state in which the methods of [Neo4jDatabase] leave the world
    between two calls: the driver in [self._driver], if any, is an object
    that exists and is open, and no session is open. *)
Definition consistent {Store : Type} (w : @world Store) : Prop :=
  (forall d, _driver (self w) = Some d ->
             exists dr, drivers w !! d = Some dr /\ d_open dr = true)
  /\ Forall (fun s => s_open s = false) (sessions w).

(** A call of [connect] that has not yet got past the creation of a
    driver. *)
Definition pending (pc : connect_pc) : nat :=
  match pc with
  | AtCheck | AtCreate => 1
  | _ => 0
  end.

Fixpoint pending_total (ts : list connect_pc) : nat :=
  match ts with
  | [] => 0
  | pc :: rest => pending pc + pending_total rest
  end.

(** Where a call of [connect] can be once driver [d] is stored: before its
    test, before its [return], or finished with [d]. *)
Definition settled (d : Driver) (pc : connect_pc) : Prop :=
  pc = AtCheck \/ pc = AtReturn \/ pc = Finished (Return (Some d)).

(** A store that answers the probe with no row, and one whose row has no
    column [test]. *)
Definition demo_mute : Demo.store := Demo.mk_store [] true [] [].

Definition demo_untested : Demo.store :=
  Demo.mk_store [[("one", PInt 1)]] true [] [].

(** A client that refuses to build a driver for an address without a
    scheme, over the same store. *)
Definition strict_client : Neo4jClient Demo.store :=
  {| driver_error :=
       fun u _ _ =>
         if contains "://" u then None
         else Some (OtherError "ConfigurationError" "URI scheme not supported");
     server_run := Demo.server_run |}.

(** A process started with [NEO4J_URI=localhost]. *)
Definition demo_environ_without_scheme (name : string) : option string :=
  if String.eqb name "NEO4J_URI" then Some "localhost" else None.

Definition demo_start_without_scheme : @world Demo.store :=
  mk_world
    (Neo4jDatabase_call (settings.NEO4J_URI demo_environ_without_scheme)
                        (settings.NEO4J_USER demo_environ_without_scheme)
                        (settings.NEO4J_PASSWORD demo_environ_without_scheme)
                        (settings.NEO4J_DATABASE demo_environ_without_scheme) None)
    [] [] [] Demo.healthy.

(** A call keeps the world consistent when it leaves it so, whether it
    returns or raises. *)
Definition keeps_consistent {Store : Type} {A : Type} (m : @M Store A) : Prop :=
  forall w, consistent w -> consistent (snd (m w)).

(** The world after [connect], [close] and [connect] again on the healthy
    store. *)
Definition demo_reconnected : @world Demo.store :=
  Eval vm_compute in snd (connect (snd (close demo_connected))).

(** Unfolds the calls of the monad and of the client. *)
Ltac unfold_calls :=
  unfold bind, ret, raise, get_self, assign_driver, logger_info, logger_error,
    GraphDatabase_driver, driver_session, session_close, result_single,
    result_records, getitem, try_finally, try_except in *.

(** * Properties *)

(** ** Validation of enumerated fields *)

Section ValidatorFacts.

Variable lower : string -> string.

Lemma lower_not_in_false (v : string) (allowed : list string) (x : string) :
  In x allowed -> lower v = lower x -> lower_not_in lower v allowed = false.
Proof.
  intros Hin Heq. unfold lower_not_in.
  apply negb_false_iff, existsb_exists.
  exists (lower x). split.
  - apply in_map, Hin.
  - apply String.eqb_eq, Heq.
Qed.

Lemma lower_not_in_true (v : string) (allowed : list string) :
  (forall x, In x allowed -> lower v <> lower x) ->
  lower_not_in lower v allowed = true.
Proof.
  intros Hno. unfold lower_not_in.
  apply negb_true_iff.
  destruct (existsb (String.eqb (lower v)) (map lower allowed)) eqn:E; [|reflexivity].
  apply existsb_exists in E. destruct E as (y & Hy & Hvy).
  apply in_map_iff in Hy. destruct Hy as (x & <- & Hx).
  apply String.eqb_eq in Hvy. exfalso. exact (Hno x Hx Hvy).
Qed.

(** The loop returns the first configured member with the input's lowered
    form; when lowering tells the members apart, that is the only one. *)
Lemma standardized_case_unique (v : string) (allowed : list string) (x : string) :
  NoDup (map lower allowed) ->
  In x allowed -> lower v = lower x ->
  standardized_case lower v allowed = Some x.
Proof.
  induction allowed as [|a rest IH]; intros Hnd Hin Heq; [destruct Hin|].
  simpl in *. inversion Hnd as [|? ? Hnotin Hnd']; subst.
  destruct (String.eqb (lower v) (lower a)) eqn:E.
  - apply String.eqb_eq in E. destruct Hin as [->|Hin]; [reflexivity|].
    exfalso. apply Hnotin. rewrite <- E, Heq. apply in_map, Hin.
  - apply String.eqb_neq in E. destruct Hin as [->|Hin]; [contradiction|].
    apply IH; assumption.
Qed.

Lemma standardized_case_in (v : string) (allowed : list string) (x : string) :
  standardized_case lower v allowed = Some x ->
  In x allowed /\ lower v = lower x.
Proof.
  induction allowed as [|a rest IH]; simpl; [discriminate|].
  destruct (String.eqb (lower v) (lower a)) eqn:E.
  - intros [= ->]. apply String.eqb_eq in E. auto.
  - intros H. destruct (IH H). auto.
Qed.

End ValidatorFacts.

(** Every configured word is the value of a member of the field's
    enumeration, so what a validator returns is accepted by the field. *)
Lemma configured_values_are_members :
  Forall (fun cat => exists c, RuleCategory_of_value cat = Some c
                               /\ RuleCategory_value c = cat)
         config.RULE_CATEGORIES
  /\ Forall (fun level => exists o, ObligationLevel_of_value level = Some o
                                    /\ ObligationLevel_value o = level)
            config.OBLIGATION_LEVELS.
Proof.
  split; repeat constructor; eexists; split; reflexivity.
Qed.

(** C2. For every input string [v] of a rule's [category] or
    [obligation_level]: when [v.lower()] equals the lowered form of a member
    of the configured list, the validator accepts [v] and returns that member
    in the casing the configuration declares; when it equals the lowered form
    of no member, the validator raises [ValueError] with a message that names
    the field, the offending value and the allowed list.  ([lower] is the
    runtime's [str.lower]; it is only asked to tell the configured words
    apart.) *)
Theorem enumerated_field_validation (lower : string -> string) (v : string) :
  NoDup (map lower config.RULE_CATEGORIES) ->
  NoDup (map lower config.OBLIGATION_LEVELS) ->
  (forall cat, In cat config.RULE_CATEGORIES -> lower v = lower cat ->
     RuleBase.validate_category lower (PStr v) = Return (PStr cat))
  /\ ((forall cat, In cat config.RULE_CATEGORIES -> lower v <> lower cat) ->
      RuleBase.validate_category lower (PStr v)
      = Raise (ValueError ("Invalid category: " ++ v ++ ". Must be one of "
          ++ "['data', 'validation', 'calculation', 'process', 'reporting', 'compliance']")))
  /\ (forall level, In level config.OBLIGATION_LEVELS -> lower v = lower level ->
     RuleBase.validate_obligation_level lower (PStr v) = Return (PStr level))
  /\ ((forall level, In level config.OBLIGATION_LEVELS -> lower v <> lower level) ->
      RuleBase.validate_obligation_level lower (PStr v)
      = Raise (ValueError ("Invalid obligation level: " ++ v ++ ". Must be one of "
          ++ "['mandatory', 'conditional', 'optional']"))).
Proof.
  intros Hcat Hlev. repeat split.
  - intros cat Hin Heq. unfold RuleBase.validate_category.
    rewrite (lower_not_in_false lower v _ cat Hin Heq).
    rewrite (standardized_case_unique lower v _ cat Hcat Hin Heq). reflexivity.
  - intros Hno. unfold RuleBase.validate_category.
    rewrite (lower_not_in_true lower v _ Hno). reflexivity.
  - intros level Hin Heq. unfold RuleBase.validate_obligation_level.
    rewrite (lower_not_in_false lower v _ level Hin Heq).
    rewrite (standardized_case_unique lower v _ level Hlev Hin Heq). reflexivity.
  - intros Hno. unfold RuleBase.validate_obligation_level.
    rewrite (lower_not_in_true lower v _ Hno). reflexivity.
Qed.

Lemma NoDup_lowered_categories : NoDup (map ascii_lower config.RULE_CATEGORIES).
Proof.
  vm_compute.
  repeat (apply List.NoDup_cons; [simpl; intuition discriminate|]).
  apply List.NoDup_nil.
Qed.

Lemma NoDup_lowered_levels : NoDup (map ascii_lower config.OBLIGATION_LEVELS).
Proof.
  vm_compute.
  repeat (apply List.NoDup_cons; [simpl; intuition discriminate|]).
  apply List.NoDup_nil.
Qed.

(** "VALIDation" and "Optional" are accepted and come back as configured;
    "urgent" is refused under both fields. *)
Lemma enumerated_field_validation_witness :
  RuleBase.validate_category ascii_lower (PStr "VALIDation") = Return (PStr "validation")
  /\ RuleBase.validate_obligation_level ascii_lower (PStr "Optional")
     = Return (PStr "optional")
  /\ RuleBase.validate_category ascii_lower (PStr "urgent")
     = Raise (ValueError ("Invalid category: urgent. Must be one of "
          ++ "['data', 'validation', 'calculation', 'process', 'reporting', 'compliance']")).
Proof.
  split; [|split].
  - apply (enumerated_field_validation ascii_lower "VALIDation"
             NoDup_lowered_categories NoDup_lowered_levels).
    + simpl. auto.
    + reflexivity.
  - apply (enumerated_field_validation ascii_lower "Optional"
             NoDup_lowered_categories NoDup_lowered_levels).
    + simpl. auto.
    + reflexivity.
  - apply (enumerated_field_validation ascii_lower "urgent"
             NoDup_lowered_categories NoDup_lowered_levels).
    intros cat Hin.
    repeat (destruct Hin as [<-|Hin]; [vm_compute; discriminate|]).
    destruct Hin.
Defined.

(** ** Partial updates *)

(** C7. For a partial-update record the validators of [RuleUpdate] let an
    absent ([None]) category or obligation level through, unvalidated and
    unchanged, and treat a present string exactly as the validators of
    [RuleBase] do; and applying the record to a stored Rule leaves every field
    that is absent from the record as it was, and never touches [rule_id].
    (The update operation is the one modelled from the spec above.) *)
Theorem partial_update_frame (lower : string -> string)
        (u : RuleUpdate.RuleUpdate) (r : Rule.Rule) :
  RuleUpdate.validate_category lower PNone = Return PNone
  /\ RuleUpdate.validate_obligation_level lower PNone = Return PNone
  /\ (forall v, RuleUpdate.validate_category lower (PStr v)
                = RuleBase.validate_category lower (PStr v))
  /\ (forall v, RuleUpdate.validate_obligation_level lower (PStr v)
                = RuleBase.validate_obligation_level lower (PStr v))
  /\ (RuleUpdate.name u = None ->
      Rule.name (apply_update u r) = Rule.name r)
  /\ (RuleUpdate.description u = None ->
      Rule.description (apply_update u r) = Rule.description r)
  /\ (RuleUpdate.category u = None ->
      Rule.category (apply_update u r) = Rule.category r)
  /\ (RuleUpdate.obligation_level u = None ->
      Rule.obligation_level (apply_update u r) = Rule.obligation_level r)
  /\ (RuleUpdate.data_elements u = None ->
      Rule.data_elements (apply_update u r) = Rule.data_elements r)
  /\ (RuleUpdate.conditions u = None ->
      Rule.conditions (apply_update u r) = Rule.conditions r)
  /\ (RuleUpdate.actions u = None ->
      Rule.actions (apply_update u r) = Rule.actions r)
  /\ (RuleUpdate.exceptions u = None ->
      Rule.exceptions (apply_update u r) = Rule.exceptions r)
  /\ (RuleUpdate.thresholds u = None ->
      Rule.thresholds (apply_update u r) = Rule.thresholds r)
  /\ (RuleUpdate.validation_logic u = None ->
      Rule.validation_logic (apply_update u r) = Rule.validation_logic r)
  /\ (RuleUpdate.source_reference u = None ->
      Rule.source_reference (apply_update u r) = Rule.source_reference r)
  /\ (RuleUpdate.effective_date u = None ->
      Rule.effective_date (apply_update u r) = Rule.effective_date r)
  /\ (RuleUpdate.related_rules u = None ->
      Rule.related_rules (apply_update u r) = Rule.related_rules r)
  /\ Rule.rule_id (apply_update u r) = Rule.rule_id r.
Proof.
  repeat split; try (intros H; simpl; rewrite H; reflexivity).
Qed.

(** The spec's example: an update with only a description, applied to the
    rule R001 of the model's documentation. *)
Lemma partial_update_frame_witness :
  let r := Rule.mk "Income Validation" "Customer income must be greater than zero"
                   VALIDATION MANDATORY ["customer_income"]
                   ["customer_application_submitted = true"]
                   ["validate_income_documentation"] [] []
                   (Some "customer_income > 0") None
                   (Some (mk_date 2025 1 1)) [] "R001" None None in
  let u := RuleUpdate.mk None (Some "new text") None None None None None None None
                         None None None None in
  Rule.category (apply_update u r) = VALIDATION
  /\ Rule.data_elements (apply_update u r) = ["customer_income"]
  /\ Rule.description (apply_update u r) = "new text".
Proof.
  intros r u.
  pose proof (partial_update_frame ascii_lower u r) as H.
  destruct H as (_ & _ & _ & _ & _ & _ & Hcat & _ & Hde & _).
  split; [exact (Hcat eq_refl)|]. split; [exact (Hde eq_refl)|]. reflexivity.
Defined.

(** ** The connection manager and the query executor *)

Section DbFacts.

Context {Store : Type} {client : Neo4jClient Store}.

Abbreviation world := (@world Store).

(** A stored driver is returned as it is: no driver is created, no probe
    runs, nothing is logged. *)
Lemma connect_stored (w : world) (d : Driver) :
  _driver (self w) = Some d -> connect w = (Return d, w).
Proof.
  intros H. unfold connect. unfold_calls. rewrite H. reflexivity.
Qed.

Lemma session_close_closed (s : Session) (w : world) :
  session_is_open s (snd (session_close s w)) = false.
Proof.
  unfold session_is_open, session_close. simpl.
  rewrite list_lookup_alter_eq.
  destruct (_ !! _); reflexivity.
Qed.

Lemma session_close_frame (s : Session) (w : world) :
  let w' := snd (session_close s w) in
  self w' = self w /\ drivers w' = drivers w
  /\ log w' = log w /\ store w' = store w.
Proof. repeat split. Qed.

Lemma new_session_lookup (d : Driver) (w : world) :
  sessions (with_new_session d w) !! length (sessions w)
  = Some (mk_session d (database (self w)) true).
Proof.
  unfold with_new_session. simpl.
  rewrite lookup_app_r by lia.
  replace (length (sessions w) - length (sessions w)) with 0 by lia.
  reflexivity.
Qed.

Lemma close_new_session (d : Driver) (db : string) (l : list session_obj) :
  alter (fun o => mk_session (s_driver o) (s_database o) false)
        (length l) (l ++ [mk_session d db true])%list
  = (l ++ [mk_session d db false])%list.
Proof.
  rewrite <- (Nat.add_0_r (List.length l)) at 1.
  rewrite alter_app_r. reflexivity.
Qed.

(** What [session_run] does on the session just opened on a driver that
    exists. *)
Lemma session_run_new (d : Driver) (dr : driver_obj) (w : world)
      (query : string) (params : pydict) :
  drivers w !! d = Some dr ->
  session_run (length (sessions w)) query params (with_new_session d w)
  = match server_run dr (database (self w)) query params (store w) with
    | (Return rows, st) =>
        (Return (mk_result (length (sessions w)) rows),
         set_store st (with_new_session d w))
    | (Raise e, st) => (Raise e, set_store st (with_new_session d w))
    end.
Proof.
  intros Hd. unfold session_run.
  rewrite new_session_lookup. simpl. rewrite Hd. reflexivity.
Qed.

(** [with self.get_session() as session: body], once [connect] has
    returned: a new session is opened, the body runs, the session is
    closed, and the body's outcome is the outcome of the whole. *)
Lemma get_session_unfold {A : Type} (body : Session -> M A)
      (w w1 : world) (d : Driver) :
  connect w = (Return d, w1) ->
  get_session body w
  = (fst (body (length (sessions w1)) (with_new_session d w1)),
     snd (session_close (length (sessions w1))
            (snd (body (length (sessions w1)) (with_new_session d w1))))).
Proof.
  intros Hc. unfold get_session, bind. rewrite Hc.
  unfold get_self, driver_session, try_finally. fold (with_new_session d w1).
  destruct (body (length (sessions w1)) (with_new_session d w1)) as [r w3].
  reflexivity.
Qed.

Lemma with_closed_session_is_closed (d : Driver) (w : world) (st : Store) :
  snd (session_close (length (sessions w)) (set_store st (with_new_session d w)))
  = set_store st (with_closed_session d w).
Proof.
  unfold session_close, with_new_session, with_closed_session, set_store, set_sessions.
  simpl. rewrite close_new_session. reflexivity.
Qed.

Lemma new_session_is_open (d : Driver) (w : world) (st : Store) :
  session_is_open (length (sessions w)) (set_store st (with_new_session d w)) = true.
Proof.
  unfold session_is_open. simpl.
  change (sessions w ++ _)%list with (sessions (with_new_session d w)).
  rewrite new_session_lookup. reflexivity.
Qed.

(** The probe, step by step, on a driver that exists. *)
Lemma connection_test_unfold (d : Driver) (dr : driver_obj) (w : world) :
  drivers w !! d = Some dr ->
  connection_test d w
  = match server_run dr (database (self w)) "RETURN 1 AS test" [] (store w) with
    | (Return rows, st) =>
        match head rows with
        | None =>
            (Raise (TypeError "'NoneType' object is not subscriptable"),
             set_store st (with_closed_session d w))
        | Some record =>
            match dict_get "test" record with
            | None => (Raise (KeyError "test"), set_store st (with_closed_session d w))
            | Some test_value =>
                if py_ne_1 test_value
                then (Raise (ServiceUnavailable "Database connection test failed"),
                      set_store st (with_closed_session d w))
                else (Return tt,
                      set_log (log w ++ [(INFO, "Connected to Neo4j at " ++ uri (self w))])
                              (set_store st (with_closed_session d w)))
            end
        end
    | (Raise e, st) => (Raise e, set_store st (with_closed_session d w))
    end.
Proof.
  intros Hd. unfold connection_test.
  unfold bind at 1. unfold get_self at 1.
  unfold bind at 1. unfold driver_session at 1.
  fold (with_new_session d w).
  unfold try_finally. unfold bind at 1.
  rewrite (session_run_new d dr w _ _ Hd).
  destruct (server_run dr (database (self w)) "RETURN 1 AS test" [] (store w))
    as [[rows|e] st].
  - unfold result_single, bind, result_records. simpl r_session.
    rewrite new_session_is_open. simpl r_records. unfold ret at 1.
    destruct (head rows) as [record|]; simpl getitem.
    + destruct (dict_get "test" record) as [v|].
      * unfold ret at 1. destruct (py_ne_1 v).
        -- unfold raise.
           rewrite (surjective_pairing (session_close _ _)).
           rewrite with_closed_session_is_closed. reflexivity.
        -- unfold logger_info. 
           rewrite (surjective_pairing (session_close _ _)).
           simpl. rewrite close_new_session. reflexivity.
      * unfold raise.
        rewrite (surjective_pairing (session_close _ _)).
        rewrite with_closed_session_is_closed. reflexivity.
    + unfold raise.
      rewrite (surjective_pairing (session_close _ _)).
      rewrite with_closed_session_is_closed. reflexivity.
  - rewrite (surjective_pairing (session_close _ _)).
    rewrite with_closed_session_is_closed. reflexivity.
Qed.

Lemma new_driver_lookup (w : world) :
  drivers (with_new_driver w) !! length (drivers w)
  = Some (mk_driver (uri (self w)) (user (self w)) (password (self w)) true).
Proof.
  unfold with_new_driver. simpl.
  rewrite lookup_app_r by lia.
  replace (length (drivers w) - length (drivers w)) with 0 by lia.
  reflexivity.
Qed.

(** [connect] when no driver is stored and [GraphDatabase.driver] raises. *)
Lemma connect_driver_error (w : world) (e : exn) :
  _driver (self w) = None ->
  driver_error (uri (self w)) (user (self w)) (password (self w)) = Some e ->
  connect w = connect_raises e w.
Proof.
  intros Hnone He. unfold connect, try_except, bind, get_self.
  rewrite Hnone. unfold GraphDatabase_driver. rewrite He.
  unfold connect_except, connect_raises.
  destruct (is_ServiceUnavailable_or_AuthError e); reflexivity.
Qed.

(** [connect] when no driver is stored and one is created: the new driver is
    stored first, then probed. *)
Lemma connect_fresh (w : world) :
  _driver (self w) = None ->
  driver_error (uri (self w)) (user (self w)) (password (self w)) = None ->
  connect w
  = match connection_test (length (drivers w)) (with_new_driver w) with
    | (Return _, w1) => (Return (length (drivers w)), w1)
    | (Raise e, w1) => connect_raises e w1
    end.
Proof.
  intros Hnone He. unfold connect, try_except.
  unfold bind at 1. unfold get_self at 1. rewrite Hnone.
  unfold bind at 1. unfold GraphDatabase_driver at 1. rewrite He.
  unfold bind at 1. unfold assign_driver at 1.
  change (set_self _ _) with (with_new_driver w).
  unfold bind at 1.
  destruct (connection_test (length (drivers w)) (with_new_driver w))
    as [[[]|e] w1].
  - reflexivity.
  - unfold connect_except, connect_raises.
    destruct (is_ServiceUnavailable_or_AuthError e); reflexivity.
Qed.

(** The probe changes neither the instance nor the driver objects. *)
Lemma connection_test_frame (d : Driver) (dr : driver_obj) (w : world) :
  drivers w !! d = Some dr ->
  self (snd (connection_test d w)) = self w
  /\ drivers (snd (connection_test d w)) = drivers w.
Proof.
  intros Hd. rewrite (connection_test_unfold d dr w Hd).
  destruct (server_run dr (database (self w)) "RETURN 1 AS test" [] (store w))
    as [[rows|e] st]; [|split; reflexivity].
  destruct (head rows) as [record|]; [|split; reflexivity].
  destruct (dict_get "test" record) as [v|]; [|split; reflexivity].
  destruct (py_ne_1 v); split; reflexivity.
Qed.

Lemma connect_raises_frame (e : exn) (w : world) :
  self (snd (connect_raises e w)) = self w
  /\ drivers (snd (connect_raises e w)) = drivers w
  /\ fst (connect_raises e w) = Raise e.
Proof.
  unfold connect_raises.
  destruct (is_ServiceUnavailable_or_AuthError e); repeat split.
Qed.

(** What [connect] returns is what it leaves in [self._driver]. *)
Lemma connect_returns_stored (w w1 : world) (d : Driver) :
  connect w = (Return d, w1) -> _driver (self w1) = Some d.
Proof.
  intros Hc. destruct (_driver (self w)) as [d0|] eqn:Hdrv.
  - rewrite (connect_stored w d0 Hdrv) in Hc. inversion Hc; subst. exact Hdrv.
  - destruct (driver_error (uri (self w)) (user (self w)) (password (self w)))
      as [e|] eqn:He.
    + rewrite (connect_driver_error w e Hdrv He) in Hc.
      pose proof (connect_raises_frame e w) as (_ & _ & Hr).
      rewrite Hc in Hr. discriminate.
    + rewrite (connect_fresh w Hdrv He) in Hc.
      pose proof (connection_test_frame _ _ _ (new_driver_lookup w)) as [Hself _].
      destruct (connection_test (length (drivers w)) (with_new_driver w))
        as [[[]|e] w2].
      * inversion Hc; subst. simpl in Hself. rewrite Hself. reflexivity.
      * pose proof (connect_raises_frame e w2) as (_ & _ & Hr).
        rewrite Hc in Hr. discriminate.
Qed.

(** *** Failure of the liveness probe *)

(** C1, as the code has it.  When [connect] creates a connection and the
    probe's row carries a value other than 1 under [test], although the query
    itself went through, [connect] raises
    [ServiceUnavailable("Database connection test failed")]: the class that a
    failed transport raises too.  Both leave through the same [except]
    clause, which logs the error and raises it again. *)
Theorem connect_probe_mismatch_raises_ServiceUnavailable (w : world) :
  _driver (self w) = None ->
  driver_error (uri (self w)) (user (self w)) (password (self w)) = None ->
  (forall rows st record test_value,
      server_run (mk_driver (uri (self w)) (user (self w)) (password (self w)) true)
                 (database (self w)) "RETURN 1 AS test" [] (store w)
      = (Return rows, st) ->
      head rows = Some record ->
      dict_get "test" record = Some test_value ->
      py_ne_1 test_value = true ->
      fst (connect w) = Raise (ServiceUnavailable "Database connection test failed")
      /\ log (snd (connect w))
         = (log w ++ [(ERROR, "Failed to connect to Neo4j: Database connection test failed")])%list)
  /\ (forall msg st,
      server_run (mk_driver (uri (self w)) (user (self w)) (password (self w)) true)
                 (database (self w)) "RETURN 1 AS test" [] (store w)
      = (Raise (ServiceUnavailable msg), st) ->
      fst (connect w) = Raise (ServiceUnavailable msg)
      /\ log (snd (connect w))
         = (log w ++ [(ERROR, ("Failed to connect to Neo4j: " ++ msg)%string)])%list).
Proof.
  intros Hnone He.
  rewrite (connect_fresh w Hnone He).
  rewrite (connection_test_unfold _ _ _ (new_driver_lookup w)).
  simpl self. simpl database. simpl store.
  split.
  - intros rows st record v Hrun Hhead Hget Hne.
    rewrite Hrun, Hhead, Hget, Hne. split; reflexivity.
  - intros msg st Hrun. rewrite Hrun. split; reflexivity.
Qed.

(** C10. When [connect] creates a driver and then raises, the exception comes
    from the probe, and the instance keeps the driver it had already stored:
    the driver object exists, still open, and every later call of [connect]
    returns it and leaves the world as it is (no probe, no new driver, no log
    entry). *)
Theorem failed_probe_keeps_driver (w w1 : world) (e : exn) :
  _driver (self w) = None ->
  driver_error (uri (self w)) (user (self w)) (password (self w)) = None ->
  connect w = (Raise e, w1) ->
  _driver (self w1) = Some (length (drivers w))
  /\ drivers w1 !! length (drivers w)
     = Some (mk_driver (uri (self w)) (user (self w)) (password (self w)) true)
  /\ connect w1 = (Return (length (drivers w)), w1)
  /\ forall n, connect_times n w1
               = (repeat (Return (length (drivers w))) n, w1).
Proof.
  intros Hnone He Hc.
  rewrite (connect_fresh w Hnone He) in Hc.
  pose proof (connection_test_frame _ _ _ (new_driver_lookup w)) as [Hself Hdrv].
  destruct (connection_test (length (drivers w)) (with_new_driver w)) as [[[]|e0] w2];
    [discriminate|].
  pose proof (connect_raises_frame e0 w2) as (Hs & Hd & _).
  rewrite Hc in Hs, Hd. simpl in Hs, Hd, Hself, Hdrv.
  assert (Hstored : _driver (self w1) = Some (length (drivers w))).
  { rewrite Hs, Hself. reflexivity. }
  assert (Hagain : connect w1 = (Return (length (drivers w)), w1)).
  { apply connect_stored, Hstored. }
  split; [exact Hstored|]. split.
  - rewrite Hd, Hdrv. apply new_driver_lookup.
  - split; [exact Hagain|].
    induction n as [|n IH]; [reflexivity|].
    simpl. rewrite Hagain, IH. reflexivity.
Qed.

(** *** Scoped sessions *)

(** C3. Once [connect] has returned a driver, [get_session] opens a session
    and runs the body in it; whatever the body does, return ([r = Return a])
    or raise ([r = Raise e]), the whole has that same outcome and the session
    is closed when it ends.  Closing the session changes neither the instance
    nor any driver object: when the body itself leaves them alone, the driver
    that [connect] returned is still stored in [self._driver] and as open as
    it was. *)
Theorem get_session_releases_session {A : Type} (body : Session -> M A)
        (w w1 : world) (d : Driver) :
  connect w = (Return d, w1) ->
  forall (r : outcome A) (w3 : world),
    body (length (sessions w1)) (with_new_session d w1) = (r, w3) ->
    exists w',
      get_session body w = (r, w')
      /\ session_is_open (length (sessions w1)) (with_new_session d w1) = true
      /\ session_is_open (length (sessions w1)) w' = false
      /\ self w' = self w3
      /\ drivers w' = drivers w3
      /\ (self w3 = self w1 -> drivers w3 = drivers w1 ->
          _driver (self w') = Some d
          /\ driver_is_open d w' = driver_is_open d w1).
Proof.
  intros Hc r w3 Hbody.
  exists (snd (session_close (length (sessions w1)) w3)).
  rewrite (get_session_unfold body w w1 d Hc), Hbody. cbn [fst snd].
  split; [reflexivity|]. split.
  { unfold session_is_open. rewrite new_session_lookup. reflexivity. }
  split; [apply session_close_closed|].
  split; [reflexivity|]. split; [reflexivity|].
  intros Hself Hdrv. split.
  - simpl. rewrite Hself. apply (connect_returns_stored w w1 d Hc).
  - unfold driver_is_open. simpl. rewrite Hdrv. reflexivity.
Qed.

Lemma session_run_result (s : Session) (query : string) (params : pydict)
      (w w' : world) (result : Result) :
  session_run s query params w = (Return result, w') ->
  r_session result = s /\ sessions w' = sessions w.
Proof.
  unfold session_run.
  destruct (sessions w !! s) as [so|]; [|discriminate].
  destruct (s_open so); [|discriminate].
  destruct (drivers w !! s_driver so) as [dr|]; [|discriminate].
  destruct (server_run dr (s_database so) query params (store w)) as [[rows|e] st];
    [|discriminate].
  intros H. inversion H; subst. split; reflexivity.
Qed.

Lemma get_session_connect_raises {A : Type} (body : Session -> M A)
      (w w1 : world) (e : exn) :
  connect w = (Raise e, w1) -> get_session body w = (Raise e, w1).
Proof.
  intros Hc. unfold get_session, bind. rewrite Hc. reflexivity.
Qed.

(** C9. Whenever [execute_query] returns a [Result], the session that ran the
    query is already closed in the world the caller gets, so the rows of that
    result can no longer be read; and it does return one as soon as [connect]
    returns a driver and the store answers the query. *)
Theorem execute_query_result_session_is_closed (query : string)
        (params : option pydict) (w : world) :
  (forall (result : Result) (w' : world),
      execute_query query params w = (Return result, w') ->
      session_is_open (r_session result) w' = false
      /\ fst (result_records result w')
         = Raise (ResultConsumedError "The result is out of scope."))
  /\ (forall d w1 dr rows st,
        connect w = (Return d, w1) ->
        drivers w1 !! d = Some dr ->
        server_run dr (database (self w1)) query (or_empty params) (store w1)
        = (Return rows, st) ->
        execute_query query params w
        = (Return (mk_result (length (sessions w1)) rows),
           set_store st (with_closed_session d w1))).
Proof.
  split.
  - intros result w' Hq. unfold execute_query in Hq.
    destruct (connect w) as [[d|e] w1] eqn:Hc.
    + rewrite (get_session_unfold _ w w1 d Hc) in Hq.
      destruct (session_run (length (sessions w1)) query (or_empty params)
                            (with_new_session d w1)) as [r w3] eqn:Hrun.
      cbn [fst snd] in Hq. inversion Hq; subst r w'.
      apply session_run_result in Hrun. destruct Hrun as [Hs _].
      pose proof (session_close_closed (length (sessions w1)) w3) as Hclosed.
      rewrite Hs. split; [exact Hclosed|].
      unfold result_records.
      match goal with
      | |- context [session_is_open ?a ?b] =>
          replace (session_is_open a b) with false by (symmetry; rewrite Hs; exact Hclosed)
      end.
      reflexivity.
    + rewrite (get_session_connect_raises _ w w1 e Hc) in Hq. discriminate.
  - intros d w1 dr rows st Hc Hd Hrun. unfold execute_query.
    rewrite (get_session_unfold _ w w1 d Hc).
    rewrite (session_run_new d dr w1 _ _ Hd), Hrun. cbn [fst snd].
    rewrite with_closed_session_is_closed. reflexivity.
Qed.

(** C5. When [connect] returns a driver and the store answers the query with
    [rows], [fetch_all] returns the list of the rows' mappings, one per row
    and in the store's order, built while the session is open (the session is
    closed in the world it leaves); for no row that list is [[]], a list and
    not [None]. *)
Theorem fetch_all_returns_every_row (query : string) (params : option pydict)
        (w w1 : world) (d : Driver) (dr : driver_obj)
        (rows : list Neo4jRecord) (st : Store) :
  connect w = (Return d, w1) ->
  drivers w1 !! d = Some dr ->
  server_run dr (database (self w1)) query (or_empty params) (store w1)
  = (Return rows, st) ->
  fetch_all query params w
  = (Return (map record_data rows), set_store st (with_closed_session d w1))
  /\ (rows = [] -> fst (fetch_all query params w) = Return []).
Proof.
  intros Hc Hd Hrun.
  assert (H : fetch_all query params w
              = (Return (map record_data rows), set_store st (with_closed_session d w1))).
  { unfold fetch_all.
    rewrite (get_session_unfold _ w w1 d Hc).
    unfold bind at 1 3. rewrite (session_run_new d dr w1 _ _ Hd), Hrun.
    unfold bind, result_records. simpl r_session.
    rewrite new_session_is_open. simpl r_records. unfold ret. cbn [fst snd].
    rewrite with_closed_session_is_closed. reflexivity. }
  split; [exact H|]. intros ->. rewrite H. reflexivity.
Qed.

(** C4. When [connect] returns a driver: if the store answers the query with
    no row, [fetch_one] returns [None]; if it answers with exactly one row,
    [fetch_one] returns that row's mapping.  (A row of a query result has at
    least one column; [if record] tests just that.) *)
Theorem fetch_one_none_or_the_row (query : string) (params : option pydict)
        (w w1 : world) (d : Driver) (dr : driver_obj) :
  connect w = (Return d, w1) ->
  drivers w1 !! d = Some dr ->
  (forall st,
      server_run dr (database (self w1)) query (or_empty params) (store w1)
      = (Return [], st) ->
      fetch_one query params w
      = (Return None, set_store st (with_closed_session d w1)))
  /\ (forall row st,
        row <> [] ->
        server_run dr (database (self w1)) query (or_empty params) (store w1)
        = (Return [row], st) ->
        fetch_one query params w
        = (Return (Some (record_data row)), set_store st (with_closed_session d w1))).
Proof.
  intros Hc Hd. split.
  - intros st Hrun. unfold fetch_one.
    rewrite (get_session_unfold _ w w1 d Hc).
    unfold bind at 1 3. rewrite (session_run_new d dr w1 _ _ Hd), Hrun.
    unfold result_single, bind, result_records. simpl r_session.
    rewrite new_session_is_open. simpl r_records. unfold ret. cbn [fst snd].
    rewrite with_closed_session_is_closed. reflexivity.
  - intros row st Hrow Hrun. unfold fetch_one.
    rewrite (get_session_unfold _ w w1 d Hc).
    unfold bind at 1 3. rewrite (session_run_new d dr w1 _ _ Hd), Hrun.
    unfold result_single, bind, result_records. simpl r_session.
    rewrite new_session_is_open. simpl r_records. unfold ret. cbn [fst snd].
    rewrite with_closed_session_is_closed.
    destruct row as [|kv row']; [contradiction|]. reflexivity.
Qed.

(** *** Uniqueness constraints *)

(** [execute_query] once [connect] has returned a driver that exists: the
    query goes to the store in a new session, which is closed whether the
    store answers or refuses. *)
Lemma execute_query_unfold (query : string) (params : option pydict)
      (w w1 : world) (d : Driver) (dr : driver_obj) :
  connect w = (Return d, w1) ->
  drivers w1 !! d = Some dr ->
  execute_query query params w
  = match server_run dr (database (self w1)) query (or_empty params) (store w1) with
    | (Return rows, st) =>
        (Return (mk_result (length (sessions w1)) rows),
         set_store st (with_closed_session d w1))
    | (Raise e, st) => (Raise e, set_store st (with_closed_session d w1))
    end.
Proof.
  intros Hc Hd. unfold execute_query.
  rewrite (get_session_unfold _ w w1 d Hc).
  rewrite (session_run_new d dr w1 _ _ Hd).
  destruct (server_run dr (database (self w1)) query (or_empty params) (store w1))
    as [[rows|e] st]; cbn [fst snd];
    rewrite with_closed_session_is_closed; reflexivity.
Qed.

(** One turn of the loop, in the same situation. *)
Lemma apply_constraint_eq (c : string) (w w1 : world) (d : Driver) (dr : driver_obj) :
  connect w = (Return d, w1) ->
  drivers w1 !! d = Some dr ->
  apply_constraint c w
  = match server_run dr (database (self w1)) c [] (store w1) with
    | (Return rows, st) =>
        (Return tt,
         set_log (log w1 ++ [(INFO, "Applied constraint: " ++ c)])
                 (set_store st (with_closed_session d w1)))
    | (Raise e, st) =>
        if is_Exception e
        then (Raise e,
              set_log (log w1 ++ [(ERROR, "Failed to create constraint: " ++ exn_str e)])
                      (set_store st (with_closed_session d w1)))
        else (Raise e, set_store st (with_closed_session d w1))
    end.
Proof.
  intros Hc Hd. unfold apply_constraint, try_except, bind.
  rewrite (execute_query_unfold c None w w1 d dr Hc Hd). simpl or_empty.
  destruct (server_run dr (database (self w1)) c [] (store w1)) as [[rows|e] st].
  - reflexivity.
  - destruct (is_Exception e); reflexivity.
Qed.

Lemma apply_constraint_unfold (c : string) (w w1 : world) (d : Driver) (dr : driver_obj) :
  connect w = (Return d, w1) ->
  drivers w1 !! d = Some dr ->
  fst (apply_constraint c w)
  = match fst (server_run dr (database (self w1)) c [] (store w1)) with
    | Return _ => Return tt
    | Raise e => Raise e
    end
  /\ store (snd (apply_constraint c w))
     = snd (server_run dr (database (self w1)) c [] (store w1))
  /\ self (snd (apply_constraint c w)) = self w1
  /\ drivers (snd (apply_constraint c w)) = drivers w1.
Proof.
  intros Hc Hd. rewrite (apply_constraint_eq c w w1 d dr Hc Hd).
  destruct (server_run dr (database (self w1)) c [] (store w1)) as [[rows|e] st].
  - repeat split.
  - destruct (is_Exception e); repeat split.
Qed.

(** The loop from a world where [connect] returns a driver that exists: the
    statements reach the store in order, the loop stops at the first one that
    raises, and what it raises is what the store raised. *)
Lemma for_each_constraint_issues (rest : list string) :
  forall (c : string) (w w1 : world) (d : Driver) (dr : driver_obj),
    connect w = (Return d, w1) ->
    drivers w1 !! d = Some dr ->
    fst (for_each_constraint (c :: rest) w)
    = match fst (issue_all dr (database (self w1)) (c :: rest) (store w1)) with
      | None => Return tt
      | Some e => Raise e
      end
    /\ store (snd (for_each_constraint (c :: rest) w))
       = snd (issue_all dr (database (self w1)) (c :: rest) (store w1))
    /\ self (snd (for_each_constraint (c :: rest) w)) = self w1
    /\ drivers (snd (for_each_constraint (c :: rest) w)) = drivers w1.
Proof.
  induction rest as [|c' rest IH]; intros c w w1 d dr Hc Hd.
  - pose proof (apply_constraint_unfold c w w1 d dr Hc Hd) as (Hf & Hst & Hself & Hdrv).
    simpl for_each_constraint. simpl issue_all. unfold bind.
    destruct (apply_constraint c w) as [[[]|e] w2]; cbn [fst snd] in *;
      destruct (server_run dr (database (self w1)) c [] (store w1)) as [[rows|e'] st];
      cbn [fst snd] in *; try discriminate; repeat split; auto.
  - pose proof (apply_constraint_unfold c w w1 d dr Hc Hd) as (Hf & Hst & Hself & Hdrv).
    change (for_each_constraint (c :: c' :: rest))
      with (bind (apply_constraint c) (fun _ => for_each_constraint (c' :: rest))).
    change (issue_all dr (database (self w1)) (c :: c' :: rest) (store w1))
      with (match server_run dr (database (self w1)) c [] (store w1) with
            | (Return _, st') => issue_all dr (database (self w1)) (c' :: rest) st'
            | (Raise e, st') => (Some e, st')
            end).
    unfold bind.
    destruct (apply_constraint c w) as [[[]|e] w2]; cbn [fst snd] in *;
      destruct (server_run dr (database (self w1)) c [] (store w1)) as [[rows|e'] st];
      cbn [fst snd] in *; try discriminate.
    + assert (Hc2 : connect w2 = (Return d, w2)).
      { apply connect_stored. rewrite Hself.
        apply (connect_returns_stored w w1 d Hc). }
      assert (Hd2 : drivers w2 !! d = Some dr) by (rewrite Hdrv; exact Hd).
      pose proof (IH c' w2 w2 d dr Hc2 Hd2) as (Hf' & Hst' & Hself' & Hdrv').
      rewrite Hself, Hst in *.
      repeat split; congruence.
    + repeat split; auto.
Qed.

(** An exception of [execute_query] leaves the loop's turn as it is, logged
    or not. *)
Lemma apply_constraint_raises (c : string) (w w1 : world) (e : exn) :
  execute_query c None w = (Raise e, w1) ->
  fst (apply_constraint c w) = Raise e.
Proof.
  intros Hq. unfold apply_constraint, try_except, bind. rewrite Hq.
  destruct (is_Exception e); reflexivity.
Qed.

Lemma for_each_constraint_raises (c : string) (rest : list string)
      (w w1 : world) (e : exn) :
  execute_query c None w = (Raise e, w1) ->
  fst (for_each_constraint (c :: rest) w) = Raise e.
Proof.
  intros Hq. pose proof (apply_constraint_raises c w w1 e Hq) as Hr.
  simpl for_each_constraint. unfold bind at 1.
  destruct (apply_constraint c w) as [[[]|e'] w2]; cbn [fst] in *;
    [discriminate|exact Hr].
Qed.

(** A driver that [connect] returned without there being such an object
    cannot run a query. *)
Lemma execute_query_no_driver (query : string) (params : option pydict)
      (w w1 : world) (d : Driver) :
  connect w = (Return d, w1) ->
  drivers w1 !! d = None ->
  fst (execute_query query params w) = Raise (SessionError "no driver").
Proof.
  intros Hc Hd. unfold execute_query.
  rewrite (get_session_unfold _ w w1 d Hc). cbn [fst].
  unfold session_run. rewrite new_session_lookup. simpl. rewrite Hd. reflexivity.
Qed.

Lemma issue_all_present (present : Store -> string -> Prop)
      (dr : driver_obj) (db : string) (cs : list string) :
  creates_and_keeps present ->
  forall st st',
    (forall c, In c cs -> In c constraints) ->
    issue_all dr db cs st = (None, st') ->
    (forall c, In c cs -> present st' c)
    /\ (forall c', present st c' -> present st' c').
Proof.
  intros H1. induction cs as [|c cs IH]; intros st st' Hsub Hall.
  - simpl in Hall. inversion Hall; subst. split; [intros c []|auto].
  - simpl in Hall.
    destruct (server_run dr db c [] st) as [[rows|e] st1] eqn:Hrun; [|discriminate].
    destruct (H1 dr db c st rows st1 (Hsub c (or_introl eq_refl)) Hrun) as [Hc Hkeep].
    destruct (IH st1 st' (fun x Hx => Hsub x (or_intror Hx)) Hall) as [Hcs Hkeep'].
    split.
    + intros x [<-|Hx]; [apply Hkeep', Hc|apply Hcs, Hx].
    + intros c' Hc'. apply Hkeep', Hkeep, Hc'.
Qed.

Lemma issue_all_no_op (present : Store -> string -> Prop)
      (dr : driver_obj) (db : string) (cs : list string) (st : Store) :
  no_op_when_present present ->
  (forall c, In c cs -> In c constraints /\ present st c) ->
  issue_all dr db cs st = (None, st).
Proof.
  intros H2. induction cs as [|c cs IH]; intros Hcs; [reflexivity|].
  simpl. destruct (Hcs c (or_introl eq_refl)) as [Hin Hp].
  destruct (H2 dr db c st Hin Hp) as [rows ->].
  apply IH. intros x Hx. apply Hcs. right. exact Hx.
Qed.

Lemma create_constraints_issues (w w1 : world) (d : Driver) (dr : driver_obj) :
  connect w = (Return d, w1) ->
  drivers w1 !! d = Some dr ->
  fst (create_constraints w)
  = match fst (issue_all dr (database (self w1)) constraints (store w1)) with
    | None => Return tt
    | Some e => Raise e
    end
  /\ store (snd (create_constraints w))
     = snd (issue_all dr (database (self w1)) constraints (store w1))
  /\ self (snd (create_constraints w)) = self w1
  /\ drivers (snd (create_constraints w)) = drivers w1.
Proof.
  intros Hc Hd. unfold create_constraints, constraints.
  apply (for_each_constraint_issues _ _ w w1 d dr Hc Hd).
Qed.

(** C6. Each of the three statements of [create_constraints] is written
    with [IF NOT EXISTS], and they are about [Rule.rule_id],
    [DataElement.element_id] and [Category.name].  They reach the store in
    that order; the call raises exactly what [connect] raised, or what the
    store raised for the first statement it refused, and sends nothing after
    it.  For a store that reads [IF NOT EXISTS] as it is meant, a call that
    follows one that went through goes through too and leaves the store as it
    was. *)
Theorem create_constraints_is_idempotent_and_reraises (w : world) :
  Forall (fun c => contains "IF NOT EXISTS" c = true) constraints
  /\ Forall2 (fun c key => contains key c = true) constraints constrained_keys
  /\ (forall e w1, connect w = (Raise e, w1) -> fst (create_constraints w) = Raise e)
  /\ (forall d w1 dr,
        connect w = (Return d, w1) ->
        drivers w1 !! d = Some dr ->
        fst (create_constraints w)
        = match fst (issue_all dr (database (self w1)) constraints (store w1)) with
          | None => Return tt
          | Some e => Raise e
          end
        /\ store (snd (create_constraints w))
           = snd (issue_all dr (database (self w1)) constraints (store w1)))
  /\ (forall (present : Store -> string -> Prop),
        creates_and_keeps present ->
        no_op_when_present present ->
        forall w1,
          create_constraints w = (Return tt, w1) ->
          exists w2, create_constraints w1 = (Return tt, w2) /\ store w2 = store w1).
Proof.
  split; [repeat constructor|].
  split; [repeat constructor|].
  split.
  { intros e w1 Hc. unfold create_constraints, constraints.
    apply (for_each_constraint_raises _ _ w w1 e).
    unfold execute_query. apply get_session_connect_raises, Hc. }
  split.
  { intros d w1 dr Hc Hd.
    destruct (create_constraints_issues w w1 d dr Hc Hd) as (Hf & Hst & _ & _).
    split; assumption. }
  intros present H1 H2 w1 Hrun.
  destruct (connect w) as [[d|e] w0] eqn:Hc.
  2:{ assert (Hr : fst (create_constraints w) = Raise e).
      { unfold create_constraints, constraints.
        apply (for_each_constraint_raises _ _ w w0 e).
        unfold execute_query. apply get_session_connect_raises, Hc. }
      rewrite Hrun in Hr. discriminate. }
  destruct (drivers w0 !! d) as [dr|] eqn:Hd.
  2:{ assert (Hr : fst (create_constraints w) = Raise (SessionError "no driver")).
      { unfold create_constraints, constraints.
        destruct (execute_query
                    "CREATE CONSTRAINT rule_id IF NOT EXISTS FOR (r:Rule) REQUIRE r.rule_id IS UNIQUE"
                    None w) as [r wq] eqn:Hq.
        pose proof (execute_query_no_driver
                      "CREATE CONSTRAINT rule_id IF NOT EXISTS FOR (r:Rule) REQUIRE r.rule_id IS UNIQUE"
                      None w w0 d Hc Hd) as Hno.
        rewrite Hq in Hno. cbn [fst] in Hno. subst r.
        apply (for_each_constraint_raises _ _ w wq _ Hq). }
      rewrite Hrun in Hr. discriminate. }
  pose proof (create_constraints_issues w w0 d dr Hc Hd) as (Hf & Hst & Hself & Hdrv).
  rewrite Hrun in Hf, Hst, Hself, Hdrv. cbn [fst snd] in Hf, Hst, Hself, Hdrv.
  destruct (issue_all dr (database (self w0)) constraints (store w0)) as [[e|] st3] eqn:Hall;
    cbn [fst snd] in Hf, Hst; [discriminate|].
  destruct (issue_all_present present dr (database (self w0)) constraints H1
              (store w0) st3 (fun c Hin => Hin) Hall) as [Hpresent _].
  assert (Hc1 : connect w1 = (Return d, w1)).
  { apply connect_stored. rewrite Hself. apply (connect_returns_stored w w0 d Hc). }
  assert (Hd1 : drivers w1 !! d = Some dr) by (rewrite Hdrv; exact Hd).
  pose proof (create_constraints_issues w1 w1 d dr Hc1 Hd1) as (Hf' & Hst' & _ & _).
  assert (Hnoop : issue_all dr (database (self w1)) constraints (store w1)
                  = (None, store w1)).
  { apply (issue_all_no_op present); [exact H2|].
    intros c Hin. split; [exact Hin|]. rewrite Hst. apply Hpresent, Hin. }
  rewrite Hnoop in Hf', Hst'. cbn [fst snd] in Hf', Hst'.
  exists (snd (create_constraints w1)). split; [|exact Hst'].
  rewrite <- Hf'. apply surjective_pairing.
Qed.

(** *** One connection per process *)

Lemma sched_step_at (ts : list connect_pc) (i : nat) (pc : connect_pc) (w : world) :
  ts !! i = Some pc ->
  sched_step (ts, w) i
  = (<[i := fst (thread_step pc w)]> ts, snd (thread_step pc w)).
Proof.
  intros Hi. unfold sched_step. cbn [fst snd]. rewrite Hi.
  destruct (thread_step pc w). reflexivity.
Qed.




Lemma leave_connect_is_connect_raises (e : exn) (w : world) :
  leave_connect e w
  = (Finished (returned_driver (fst (connect_raises e w))), snd (connect_raises e w)).
Proof.
  unfold leave_connect, connect_except, connect_raises.
  destruct (is_ServiceUnavailable_or_AuthError e); reflexivity.
Qed.


(** A call of [connect] that finds no driver and returns has created exactly
    one driver object. *)
Lemma connect_creates_one_driver (w w1 : world) (d : Driver) :
  _driver (self w) = None ->
  connect w = (Return d, w1) ->
  d = length (drivers w)
  /\ drivers w1
     = (drivers w ++ [mk_driver (uri (self w)) (user (self w)) (password (self w)) true])%list.
Proof.
  intros Hnone Hc.
  destruct (driver_error (uri (self w)) (user (self w)) (password (self w)))
    as [e|] eqn:He.
  - rewrite (connect_driver_error w e Hnone He) in Hc.
    pose proof (connect_raises_frame e w) as (_ & _ & Hr).
    rewrite Hc in Hr. discriminate.
  - rewrite (connect_fresh w Hnone He) in Hc.
    pose proof (connection_test_frame _ _ _ (new_driver_lookup w)) as [_ Hdrv].
    destruct (connection_test (length (drivers w)) (with_new_driver w))
      as [[[]|e] w2].
    + inversion Hc; subst. split; [reflexivity|]. exact Hdrv.
    + pose proof (connect_raises_frame e w2) as (_ & _ & Hr).
      rewrite Hc in Hr. discriminate.
Qed.


End DbFacts.

(** ** The code at work on the demonstration store *)

Lemma demo_connect : connect (Demo.start Demo.healthy) = (Return 0, demo_connected).
Proof. vm_compute. reflexivity. Qed.

Lemma demo_driver :
  drivers demo_connected !! 0
  = Some (mk_driver "bolt://localhost:7687" "neo4j" "password" true).
Proof. reflexivity. Qed.

(** C1, as claimed, fails: on a store that answers the probe with 2 the query
    goes through, the value differs from 1, and what [connect] raises is a
    [ServiceUnavailable], not an error of another class. *)
Lemma probe_mismatch_is_not_a_distinct_error :
  server_run (mk_driver "bolt://localhost:7687" "neo4j" "password" true) "neo4j"
             "RETURN 1 AS test" [] Demo.confused
  = (Return [[("test", PInt 2)]], Demo.confused)
  /\ py_ne_1 (PInt 2) = true
  /\ fst (connect (Demo.start Demo.confused))
     = Raise (ServiceUnavailable "Database connection test failed")
  /\ ~ (exists e, fst (connect (Demo.start Demo.confused)) = Raise e
                  /\ exn_class e <> "ServiceUnavailable").
Proof.
  split; [reflexivity|]. split; [reflexivity|]. split; [reflexivity|].
  intros (e & He & Hclass).
  vm_compute in He. inversion He; subst. apply Hclass. reflexivity.
Qed.

Lemma connect_probe_mismatch_witness :
  fst (connect (Demo.start Demo.confused))
  = Raise (ServiceUnavailable "Database connection test failed")
  /\ log (snd (connect (Demo.start Demo.confused)))
     = [(ERROR, "Failed to connect to Neo4j: Database connection test failed")].
Proof.
  destruct (connect_probe_mismatch_raises_ServiceUnavailable (client := demo_client)
              (Demo.start Demo.confused) eq_refl eq_refl) as [H _].
  apply (H [[("test", PInt 2)]] Demo.confused [("test", PInt 2)] (PInt 2));
    reflexivity.
Defined.

Lemma failed_probe_keeps_driver_witness :
  let w1 := snd (connect (Demo.start Demo.confused)) in
  _driver (self w1) = Some 0
  /\ connect w1 = (Return 0, w1)
  /\ connect_times 3 w1 = ([Return 0; Return 0; Return 0], w1).
Proof.
  intros w1.
  destruct (failed_probe_keeps_driver (client := demo_client)
              (Demo.start Demo.confused) w1
              (ServiceUnavailable "Database connection test failed")
              eq_refl eq_refl eq_refl) as (Hstored & _ & Hagain & Htimes).
  split; [exact Hstored|]. split; [exact Hagain|]. exact (Htimes 3).
Defined.

(** A body that raises in the middle of its work: the session is closed all
    the same, and the driver stays. *)
Lemma get_session_releases_session_witness :
  exists w',
    get_session (fun _ => raise (ValueError "boom")) (Demo.start Demo.healthy)
    = (@Raise unit (ValueError "boom"), w')
    /\ session_is_open 1 w' = false
    /\ _driver (self w') = Some 0
    /\ driver_is_open 0 w' = true.
Proof.
  destruct (get_session_releases_session (client := demo_client)
              (fun _ => raise (ValueError "boom"))
              (Demo.start Demo.healthy) demo_connected 0 demo_connect
              (@Raise unit (ValueError "boom")) (with_new_session 0 demo_connected)
              eq_refl)
    as (w' & Hrun & _ & Hclosed & _ & _ & Hkeeps).
  exists w'. split; [exact Hrun|]. split; [exact Hclosed|].
  destruct (Hkeeps eq_refl eq_refl) as [Hstored Hopen].
  split; [exact Hstored|]. rewrite Hopen. reflexivity.
Defined.

Lemma execute_query_result_session_is_closed_witness :
  let r := execute_query Demo.all_rules None (Demo.start Demo.healthy) in
  fst r = Return (mk_result 1 (map Demo.rule_row (Demo.rules Demo.healthy)))
  /\ session_is_open 1 (snd r) = false.
Proof.
  intros r.
  destruct (execute_query_result_session_is_closed (client := demo_client)
              Demo.all_rules None (Demo.start Demo.healthy)) as [Hclosed Hreturns].
  pose proof (Hreturns 0 demo_connected
                       (mk_driver "bolt://localhost:7687" "neo4j" "password" true)
                       (map Demo.rule_row (Demo.rules Demo.healthy)) Demo.healthy
                       demo_connect demo_driver eq_refl) as Hq.
  split.
  - unfold r. rewrite Hq. reflexivity.
  - exact (proj1 (Hclosed _ _ Hq)).
Defined.

Lemma fetch_all_returns_every_row_witness :
  fst (fetch_all Demo.all_rules None (Demo.start Demo.healthy))
  = Return [[("rule_id", PStr "R001"); ("name", PStr "Income Validation")];
            [("rule_id", PStr "R002"); ("name", PStr "Address Check")]]
  /\ fst (fetch_all Demo.rule_by_id (Some [("rule_id", PStr "R404")])
                    (Demo.start Demo.healthy))
     = Return [].
Proof.
  split.
  - destruct (fetch_all_returns_every_row (client := demo_client)
                Demo.all_rules None (Demo.start Demo.healthy)
                demo_connected 0
                (mk_driver "bolt://localhost:7687" "neo4j" "password" true)
                (map Demo.rule_row (Demo.rules Demo.healthy)) Demo.healthy
                demo_connect demo_driver eq_refl) as [H _].
    rewrite H. reflexivity.
  - destruct (fetch_all_returns_every_row (client := demo_client)
                Demo.rule_by_id (Some [("rule_id", PStr "R404")])
                (Demo.start Demo.healthy)
                demo_connected 0
                (mk_driver "bolt://localhost:7687" "neo4j" "password" true)
                [] Demo.healthy demo_connect demo_driver eq_refl) as [_ H].
    exact (H eq_refl).
Defined.

Lemma fetch_one_none_or_the_row_witness :
  fst (fetch_one Demo.rule_by_id (Some [("rule_id", PStr "R404")])
                 (Demo.start Demo.healthy))
  = Return None
  /\ fst (fetch_one Demo.rule_by_id (Some [("rule_id", PStr "R002")])
                    (Demo.start Demo.healthy))
     = Return (Some [("rule_id", PStr "R002"); ("name", PStr "Address Check")]).
Proof.
  split.
  - destruct (fetch_one_none_or_the_row (client := demo_client)
                Demo.rule_by_id (Some [("rule_id", PStr "R404")])
                (Demo.start Demo.healthy)
                demo_connected 0
                (mk_driver "bolt://localhost:7687" "neo4j" "password" true)
                demo_connect demo_driver) as [H _].
    rewrite (H Demo.healthy eq_refl). reflexivity.
  - destruct (fetch_one_none_or_the_row (client := demo_client)
                Demo.rule_by_id (Some [("rule_id", PStr "R002")])
                (Demo.start Demo.healthy)
                demo_connected 0
                (mk_driver "bolt://localhost:7687" "neo4j" "password" true)
                demo_connect demo_driver) as [_ H].
    rewrite (H [("rule_id", PStr "R002"); ("name", PStr "Address Check")]
               Demo.healthy ltac:(discriminate) eq_refl).
    reflexivity.
Defined.

(** C8. The code misses what the claim, and the docstring of [__new__]
    ("Singleton pattern to ensure only one database connection"), promise:
    [connect] tests [self._driver] and assigns it in separate steps, with no
    lock between them.  Let two threads call [connect] when no driver is
    stored, and let the second make its test before the first has stored its
    driver.  Both see no driver; each creates one, and they return different
    drivers: two connections, not one shared by all callers. *)
Lemma overlapping_connects_create_two_drivers :
  let cfg := run_schedule [0; 1; 0; 0; 0; 1; 1; 1]
                          ([AtCheck; AtCheck], Demo.start Demo.healthy) in
  _driver (self (Demo.start Demo.healthy)) = None
  /\ fst cfg = [Finished (Return (Some 0)); Finished (Return (Some 1))]
  /\ length (drivers (snd cfg)) = 2
  /\ ~ (exists d, length (drivers (snd cfg)) = 1
                  /\ fst cfg = [Finished (Return (Some d)); Finished (Return (Some d))]).
Proof.
  intros cfg. split; [reflexivity|]. split; [reflexivity|]. split; [reflexivity|].
  intros (d & Hone & _). vm_compute in Hone. discriminate.
Qed.


Lemma demo_constraint_run (dr : driver_obj) (db c : string) (st : Demo.store) :
  In c constraints ->
  server_run dr db c [] st
  = if Demo.may_alter_schema st
    then (Return [], Demo.create_if_not_exists c st)
    else (Raise (ClientError "Schema operations are not allowed"), st).
Proof.
  intros Hin. unfold constraints in Hin.
  repeat (destruct Hin as [<-|Hin]; [reflexivity|]). destruct Hin.
Qed.

Lemma is_member_app_r (x : string) (l : list string) :
  Demo.is_member x (l ++ [x]) = true.
Proof.
  unfold Demo.is_member. rewrite existsb_app. simpl.
  rewrite String.eqb_refl. apply orb_true_iff. right. reflexivity.
Qed.

Lemma is_member_app_l (x y : string) (l : list string) :
  Demo.is_member x l = true -> Demo.is_member x (l ++ [y]) = true.
Proof.
  unfold Demo.is_member. intros H. rewrite existsb_app, H. reflexivity.
Qed.

Lemma demo_creates_and_keeps : creates_and_keeps demo_present.
Proof.
  intros dr db c st rows st' Hin Hrun.
  rewrite (demo_constraint_run dr db c st Hin) in Hrun.
  destruct (Demo.may_alter_schema st) eqn:Hmay; [|discriminate].
  inversion Hrun; subst. unfold demo_present, Demo.create_if_not_exists.
  destruct (Demo.is_member c (Demo.schema st)) eqn:Hmem.
  - split; [split; assumption|]. auto.
  - simpl. split.
    + split; [exact Hmay|]. apply is_member_app_r.
    + intros c' [_ Hc']. split; [exact Hmay|]. apply is_member_app_l, Hc'.
Qed.

Lemma demo_no_op_when_present : no_op_when_present demo_present.
Proof.
  intros dr db c st Hin [Hmay Hmem]. exists [].
  rewrite (demo_constraint_run dr db c st Hin), Hmay.
  unfold Demo.create_if_not_exists. rewrite Hmem. reflexivity.
Qed.

(** On the healthy store a second [create_constraints] changes nothing in the
    store; on the read-only store the first one raises what the store
    raised. *)
Lemma demo_create_constraints :
  create_constraints (Demo.start Demo.healthy) = (Return tt, demo_constrained).
Proof. vm_compute. reflexivity. Qed.

Lemma demo_read_only_connect :
  connect (Demo.start Demo.read_only) = (Return 0, demo_read_only_connected).
Proof. vm_compute. reflexivity. Qed.

Lemma create_constraints_witness :
  (exists w2,
      create_constraints (Demo.start Demo.healthy) = (Return tt, demo_constrained)
      /\ create_constraints demo_constrained = (Return tt, w2)
      /\ store w2 = store demo_constrained
      /\ Demo.schema (store demo_constrained) = constraints)
  /\ fst (create_constraints (Demo.start Demo.read_only))
     = Raise (ClientError "Schema operations are not allowed").
Proof.
  split.
  - destruct (create_constraints_is_idempotent_and_reraises (client := demo_client)
                (Demo.start Demo.healthy)) as (_ & _ & _ & _ & Hagain).
    destruct (Hagain demo_present demo_creates_and_keeps demo_no_op_when_present
                     demo_constrained demo_create_constraints)
      as (w2 & Hrun2 & Hstore).
    exists w2.
    split; [exact demo_create_constraints|]. split; [exact Hrun2|].
    split; [exact Hstore|]. reflexivity.
  - destruct (create_constraints_is_idempotent_and_reraises (client := demo_client)
                (Demo.start Demo.read_only)) as (_ & _ & _ & Hissue & _).
    destruct (Hissue 0 demo_read_only_connected
                     (mk_driver "bolt://localhost:7687" "neo4j" "password" true)
                     demo_read_only_connect eq_refl) as [Hf _].
    rewrite Hf. reflexivity.
Defined.

(** * Further properties *)

(** ** The validators of [models.py] *)

Section MoreValidatorFacts.

Variable lower : string -> string.

(** The membership test and the loop agree: the test fails exactly when the
    loop finds a member. *)
Lemma lower_not_in_standardized (v : string) (allowed : list string) :
  lower_not_in lower v allowed
  = match standardized_case lower v allowed with
    | Some _ => false
    | None => true
    end.
Proof.
  unfold lower_not_in. induction allowed as [|x rest IH]; [reflexivity|].
  simpl. destruct (String.eqb (lower v) (lower x)); [reflexivity|]. exact IH.
Qed.

Lemma standardized_case_lower (v1 v2 : string) (allowed : list string) :
  lower v1 = lower v2 ->
  standardized_case lower v1 allowed = standardized_case lower v2 allowed.
Proof.
  intros H. induction allowed as [|x rest IH]; [reflexivity|].
  simpl. rewrite H, IH. reflexivity.
Qed.

Lemma standardized_case_fixed (v x : string) (allowed : list string) :
  standardized_case lower v allowed = Some x ->
  standardized_case lower x allowed = Some x.
Proof.
  induction allowed as [|a rest IH]; simpl; [discriminate|].
  destruct (String.eqb (lower v) (lower a)) eqn:E.
  - intros [= ->]. rewrite String.eqb_refl. reflexivity.
  - intros H. destruct (standardized_case_in lower v rest x H) as [_ Hl].
    rewrite <- Hl, E. apply IH, H.
Qed.

(** Each validator, on a string, is the loop alone. *)
Lemma RuleBase_validate_category_eq (s : string) :
  RuleBase.validate_category lower (PStr s)
  = match standardized_case lower s config.RULE_CATEGORIES with
    | Some cat => Return (PStr cat)
    | None => Raise (ValueError ("Invalid category: " ++ s ++ ". Must be one of "
                                 ++ str_of_list config.RULE_CATEGORIES))
    end.
Proof.
  unfold RuleBase.validate_category. rewrite lower_not_in_standardized.
  destruct (standardized_case lower s config.RULE_CATEGORIES); reflexivity.
Qed.

Lemma RuleBase_validate_obligation_level_eq (s : string) :
  RuleBase.validate_obligation_level lower (PStr s)
  = match standardized_case lower s config.OBLIGATION_LEVELS with
    | Some level => Return (PStr level)
    | None => Raise (ValueError ("Invalid obligation level: " ++ s
                                 ++ ". Must be one of "
                                 ++ str_of_list config.OBLIGATION_LEVELS))
    end.
Proof.
  unfold RuleBase.validate_obligation_level. rewrite lower_not_in_standardized.
  destruct (standardized_case lower s config.OBLIGATION_LEVELS); reflexivity.
Qed.

Lemma RuleUpdate_validate_category_eq (s : string) :
  RuleUpdate.validate_category lower (PStr s)
  = RuleBase.validate_category lower (PStr s).
Proof. reflexivity. Qed.

Lemma RuleUpdate_validate_obligation_level_eq (s : string) :
  RuleUpdate.validate_obligation_level lower (PStr s)
  = RuleBase.validate_obligation_level lower (PStr s).
Proof. reflexivity. Qed.

Lemma category_is_member (cat : string) :
  In cat config.RULE_CATEGORIES ->
  exists c, RuleCategory_of_value cat = Some c /\ RuleCategory_value c = cat.
Proof.
  intros Hin. destruct configured_values_are_members as [H _].
  rewrite Forall_forall in H. apply H, Hin.
Qed.

Lemma level_is_member (level : string) :
  In level config.OBLIGATION_LEVELS ->
  exists o, ObligationLevel_of_value level = Some o /\ ObligationLevel_value o = level.
Proof.
  intros Hin. destruct configured_values_are_members as [_ H].
  rewrite Forall_forall in H. apply H, Hin.
Qed.

Lemma standardized_case_none (v : string) (allowed : list string) :
  standardized_case lower v allowed = None ->
  forall x, In x allowed -> lower v <> lower x.
Proof.
  induction allowed as [|a rest IH]; simpl; [intros _ x []|].
  destruct (String.eqb (lower v) (lower a)) eqn:E; [discriminate|].
  intros H x [<-|Hx]; [apply String.eqb_neq, E|apply IH; assumption].
Qed.

(** X1. Whatever string a validator of [RuleBase] accepts, what it returns
    is a word of the configured list with the input's lowered form, and that
    word is the value of a member of the field's enumeration: the validator
    never hands an unlisted or un-normalised string on to the field. *)
Theorem validators_return_enumeration_members (v : string) :
  (forall r, RuleBase.validate_category lower (PStr v) = Return r ->
     exists cat c,
       r = PStr cat /\ In cat config.RULE_CATEGORIES /\ lower v = lower cat
       /\ RuleCategory_of_value cat = Some c /\ RuleCategory_value c = cat)
  /\ (forall r, RuleBase.validate_obligation_level lower (PStr v) = Return r ->
     exists level o,
       r = PStr level /\ In level config.OBLIGATION_LEVELS /\ lower v = lower level
       /\ ObligationLevel_of_value level = Some o /\ ObligationLevel_value o = level).
Proof.
  split; intros r Hr.
  - rewrite RuleBase_validate_category_eq in Hr.
    destruct (standardized_case lower v config.RULE_CATEGORIES) as [cat|] eqn:E;
      [|discriminate].
    inversion Hr; subst r.
    destruct (standardized_case_in lower v _ cat E) as [Hin Hl].
    destruct (category_is_member cat Hin) as (c & Hc & Hv).
    exists cat, c. auto.
  - rewrite RuleBase_validate_obligation_level_eq in Hr.
    destruct (standardized_case lower v config.OBLIGATION_LEVELS) as [level|] eqn:E;
      [|discriminate].
    inversion Hr; subst r.
    destruct (standardized_case_in lower v _ level E) as [Hin Hl].
    destruct (level_is_member level Hin) as (o & Ho & Hv).
    exists level, o. auto.
Qed.

(** X2. Validation is idempotent: what a validator returned for a string, it
    returns again when given that result.  This holds for the two validators
    of [RuleBase] and the two of [RuleUpdate]. *)
Theorem validation_is_idempotent (v : string) (r : pyvalue) :
  (RuleBase.validate_category lower (PStr v) = Return r ->
   RuleBase.validate_category lower r = Return r)
  /\ (RuleBase.validate_obligation_level lower (PStr v) = Return r ->
      RuleBase.validate_obligation_level lower r = Return r)
  /\ (RuleUpdate.validate_category lower (PStr v) = Return r ->
      RuleUpdate.validate_category lower r = Return r)
  /\ (RuleUpdate.validate_obligation_level lower (PStr v) = Return r ->
      RuleUpdate.validate_obligation_level lower r = Return r).
Proof.
  assert (Hcat : RuleBase.validate_category lower (PStr v) = Return r ->
                 RuleBase.validate_category lower r = Return r).
  { intros Hr. rewrite RuleBase_validate_category_eq in Hr.
    destruct (standardized_case lower v config.RULE_CATEGORIES) as [cat|] eqn:E;
      [|discriminate].
    inversion Hr; subst r. rewrite RuleBase_validate_category_eq.
    rewrite (standardized_case_fixed v cat _ E). reflexivity. }
  assert (Hlev : RuleBase.validate_obligation_level lower (PStr v) = Return r ->
                 RuleBase.validate_obligation_level lower r = Return r).
  { intros Hr. rewrite RuleBase_validate_obligation_level_eq in Hr.
    destruct (standardized_case lower v config.OBLIGATION_LEVELS) as [level|] eqn:E;
      [|discriminate].
    inversion Hr; subst r. rewrite RuleBase_validate_obligation_level_eq.
    rewrite (standardized_case_fixed v level _ E). reflexivity. }
  split; [exact Hcat|]. split; [exact Hlev|]. split.
  - intros Hr. rewrite RuleUpdate_validate_category_eq in Hr.
    pose proof (Hcat Hr) as H. rewrite RuleBase_validate_category_eq in Hr.
    destruct (standardized_case lower v config.RULE_CATEGORIES); [|discriminate].
    inversion Hr; subst r. rewrite RuleUpdate_validate_category_eq. exact H.
  - intros Hr. rewrite RuleUpdate_validate_obligation_level_eq in Hr.
    pose proof (Hlev Hr) as H. rewrite RuleBase_validate_obligation_level_eq in Hr.
    destruct (standardized_case lower v config.OBLIGATION_LEVELS); [|discriminate].
    inversion Hr; subst r. rewrite RuleUpdate_validate_obligation_level_eq. exact H.
Qed.

(** X3. Validation looks at the lowered form of its input only: two strings
    with the same lowered form are accepted with the same result, or both
    refused. *)
Theorem validation_ignores_case (v1 v2 : string) :
  lower v1 = lower v2 ->
  (forall r, RuleBase.validate_category lower (PStr v1) = Return r ->
             RuleBase.validate_category lower (PStr v2) = Return r)
  /\ (forall e, RuleBase.validate_category lower (PStr v1) = Raise e ->
                exists e', RuleBase.validate_category lower (PStr v2) = Raise e')
  /\ (forall r, RuleBase.validate_obligation_level lower (PStr v1) = Return r ->
                RuleBase.validate_obligation_level lower (PStr v2) = Return r)
  /\ (forall e, RuleBase.validate_obligation_level lower (PStr v1) = Raise e ->
                exists e', RuleBase.validate_obligation_level lower (PStr v2) = Raise e').
Proof.
  intros H.
  rewrite !RuleBase_validate_category_eq, !RuleBase_validate_obligation_level_eq.
  rewrite !(standardized_case_lower v1 v2 _ H).
  destruct (standardized_case lower v2 config.RULE_CATEGORIES);
    destruct (standardized_case lower v2 config.OBLIGATION_LEVELS);
    repeat split; intros; try discriminate; eauto.
Qed.

(** X4. A validator raises for one reason only: its input is a string whose
    lowered form is that of no configured word; and then it raises the
    [ValueError] that names the field, that string and the list.  [None],
    numbers and booleans are never refused by a validator. *)
Theorem validators_raise_only_for_unknown_strings (v : pyvalue) (e : exn) :
  (RuleBase.validate_category lower v = Raise e
   \/ RuleUpdate.validate_category lower v = Raise e ->
   exists s,
     v = PStr s
     /\ (forall cat, In cat config.RULE_CATEGORIES -> lower s <> lower cat)
     /\ e = ValueError ("Invalid category: " ++ s ++ ". Must be one of "
                        ++ str_of_list config.RULE_CATEGORIES))
  /\ (RuleBase.validate_obligation_level lower v = Raise e
      \/ RuleUpdate.validate_obligation_level lower v = Raise e ->
      exists s,
        v = PStr s
        /\ (forall level, In level config.OBLIGATION_LEVELS -> lower s <> lower level)
        /\ e = ValueError ("Invalid obligation level: " ++ s ++ ". Must be one of "
                           ++ str_of_list config.OBLIGATION_LEVELS)).
Proof.
  split.
  - intros Hr.
    assert (Hb : RuleBase.validate_category lower v = Raise e).
    { destruct Hr as [Hr|Hr]; [exact Hr|]. destruct v; try discriminate. exact Hr. }
    destruct v as [| | |s]; try discriminate. exists s.
    rewrite RuleBase_validate_category_eq in Hb.
    destruct (standardized_case lower s config.RULE_CATEGORIES) eqn:E; [discriminate|].
    inversion Hb; subst e.
    split; [reflexivity|]. split; [|reflexivity].
    apply standardized_case_none, E.
  - intros Hr.
    assert (Hb : RuleBase.validate_obligation_level lower v = Raise e).
    { destruct Hr as [Hr|Hr]; [exact Hr|]. destruct v; try discriminate. exact Hr. }
    destruct v as [| | |s]; try discriminate. exists s.
    rewrite RuleBase_validate_obligation_level_eq in Hb.
    destruct (standardized_case lower s config.OBLIGATION_LEVELS) eqn:E; [discriminate|].
    inversion Hb; subst e.
    split; [reflexivity|]. split; [|reflexivity].
    apply standardized_case_none, E.
Qed.

End MoreValidatorFacts.

Lemma validation_ignores_case_witness :
  RuleBase.validate_category ascii_lower (PStr "DATA")
  = RuleBase.validate_category ascii_lower (PStr "Data").
Proof.
  destruct (validation_ignores_case ascii_lower "Data" "DATA" eq_refl) as (H & _).
  rewrite (H (PStr "data") eq_refl). reflexivity.
Defined.

(** X5. The enumerations of [models.py] and the lists of [config.py] hold the
    same words in the same order, and a member and its value determine each
    other: looking a member's value up gives the member back, and a lookup
    that succeeds gives a member with the value looked up. *)
Theorem enumerations_match_configuration :
  map RuleCategory_value RuleCategory_members = config.RULE_CATEGORIES
  /\ map ObligationLevel_value ObligationLevel_members = config.OBLIGATION_LEVELS
  /\ (forall c, RuleCategory_of_value (RuleCategory_value c) = Some c)
  /\ (forall o, ObligationLevel_of_value (ObligationLevel_value o) = Some o)
  /\ (forall s c, RuleCategory_of_value s = Some c -> RuleCategory_value c = s)
  /\ (forall s o, ObligationLevel_of_value s = Some o -> ObligationLevel_value o = s).
Proof.
  split; [reflexivity|]. split; [reflexivity|].
  split; [intros []; reflexivity|]. split; [intros []; reflexivity|].
  split.
  - intros s c H. unfold RuleCategory_of_value in H.
    apply find_some in H. destruct H as [_ H]. apply String.eqb_eq, H.
  - intros s o H. unfold ObligationLevel_of_value in H.
    apply find_some in H. destruct H as [_ H]. apply String.eqb_eq, H.
Qed.

(** ** The connection manager, further *)

Section MoreDbFacts.

Context {Store : Type} {client : Neo4jClient Store}.

Abbreviation world := (@world Store).

(** Consistency looks at the instance, the drivers and the sessions only. *)
Lemma consistent_same (w w' : world) :
  self w' = self w -> drivers w' = drivers w -> sessions w' = sessions w ->
  consistent w -> consistent w'.
Proof.
  intros Hs Hd Hss [H1 H2]. split.
  - rewrite Hs, Hd. exact H1.
  - rewrite Hss. exact H2.
Qed.

(** One more session, closed, changes nothing to it. *)
Lemma consistent_closed_session (w w' : world) (d : Driver) (db : string) :
  self w' = self w -> drivers w' = drivers w ->
  sessions w' = (sessions w ++ [mk_session d db false])%list ->
  consistent w -> consistent w'.
Proof.
  intros Hs Hd Hss [H1 H2]. split.
  - rewrite Hs, Hd. exact H1.
  - rewrite Hss. apply Forall_app. split; [exact H2|].
    constructor; [reflexivity|constructor].
Qed.

Lemma consistent_new_driver (w : world) :
  consistent w -> consistent (with_new_driver w).
Proof.
  intros [H1 H2]. split; [|exact H2].
  intros d Hd. simpl in Hd. inversion Hd; subst d.
  eexists. split; [apply new_driver_lookup|reflexivity].
Qed.

Lemma consistent_connect_raises (e : exn) (w : world) :
  consistent w -> consistent (snd (connect_raises e w)).
Proof.
  intros H. unfold connect_raises.
  destruct (is_ServiceUnavailable_or_AuthError e); [|exact H].
  apply (consistent_same w); [reflexivity..|exact H].
Qed.

(** What the probe leaves behind, on a driver that exists: one closed
    session more, and a line in the log when it passed. *)
Lemma connection_test_effects (d : Driver) (dr : driver_obj) (w : world) :
  drivers w !! d = Some dr ->
  self (snd (connection_test d w)) = self w
  /\ drivers (snd (connection_test d w)) = drivers w
  /\ sessions (snd (connection_test d w))
     = (sessions w ++ [mk_session d (database (self w)) false])%list
  /\ log (snd (connection_test d w))
     = match fst (connection_test d w) with
       | Return _ =>
           (log w ++ [(INFO, ("Connected to Neo4j at " ++ uri (self w))%string)])%list
       | Raise _ => log w
       end.
Proof.
  intros Hd. rewrite (connection_test_unfold d dr w Hd).
  destruct (server_run dr (database (self w)) "RETURN 1 AS test" [] (store w))
    as [[rows|e] st]; [|repeat split].
  destruct (head rows) as [record|]; [|repeat split].
  destruct (dict_get "test" record) as [v|]; [|repeat split].
  destruct (py_ne_1 v); repeat split.
Qed.

Lemma connect_keeps_consistent : keeps_consistent (@connect Store client).
Proof.
  intros w Hw. destruct (_driver (self w)) as [d|] eqn:Hdrv.
  - rewrite (connect_stored w d Hdrv). exact Hw.
  - destruct (driver_error (uri (self w)) (user (self w)) (password (self w)))
      as [e|] eqn:He.
    + rewrite (connect_driver_error w e Hdrv He).
      apply consistent_connect_raises, Hw.
    + rewrite (connect_fresh w Hdrv He).
      pose proof (connection_test_effects _ _ _ (new_driver_lookup w))
        as (Hs & Hd & Hss & _).
      pose proof (consistent_new_driver w Hw) as Hn.
      destruct (connection_test (length (drivers w)) (with_new_driver w))
        as [[[]|e] w1]; cbn [fst snd] in *.
      * apply (consistent_closed_session _ _ _ _ Hs Hd Hss Hn).
      * apply consistent_connect_raises.
        apply (consistent_closed_session _ _ _ _ Hs Hd Hss Hn).
Qed.

(** Under consistency the driver that [connect] returns exists and is
    open. *)
Lemma connect_returns_open_driver (w w1 : world) (d : Driver) :
  consistent w -> connect w = (Return d, w1) ->
  consistent w1 /\ exists dr, drivers w1 !! d = Some dr /\ d_open dr = true.
Proof.
  intros Hw Hc. pose proof (connect_keeps_consistent w Hw) as H1.
  rewrite Hc in H1. cbn [snd] in H1. split; [exact H1|].
  destruct H1 as [H1 _]. apply H1, (connect_returns_stored w w1 d Hc).
Qed.

(** X6. What [connect] writes to the log: an error line exactly when it
    raises a [ServiceUnavailable] or an [AuthError] (any other exception
    passes unlogged), the line "Connected to Neo4j at <uri>" exactly when it
    returns after having created the driver, and nothing when it returns the
    driver it had. *)
Theorem connect_logs_what_it_catches (w : world) :
  log (snd (connect w))
  = match fst (connect w) with
    | Raise e =>
        if is_ServiceUnavailable_or_AuthError e
        then (log w ++ [(ERROR, ("Failed to connect to Neo4j: " ++ exn_str e)%string)])%list
        else log w
    | Return _ =>
        match _driver (self w) with
        | Some _ => log w
        | None => (log w ++ [(INFO, ("Connected to Neo4j at " ++ uri (self w))%string)])%list
        end
    end.
Proof.
  destruct (_driver (self w)) as [d|] eqn:Hdrv.
  - rewrite (connect_stored w d Hdrv). reflexivity.
  - destruct (driver_error (uri (self w)) (user (self w)) (password (self w)))
      as [e|] eqn:He.
    + rewrite (connect_driver_error w e Hdrv He). unfold connect_raises.
      destruct (is_ServiceUnavailable_or_AuthError e) eqn:Hcls;
        cbn [fst snd]; rewrite Hcls; reflexivity.
    + rewrite (connect_fresh w Hdrv He).
      pose proof (connection_test_effects _ _ _ (new_driver_lookup w))
        as (_ & _ & _ & Hlog).
      destruct (connection_test (length (drivers w)) (with_new_driver w))
        as [[[]|e] w1]; cbn [fst snd] in *.
      * exact Hlog.
      * unfold connect_raises.
        destruct (is_ServiceUnavailable_or_AuthError e) eqn:Hcls;
          cbn [fst snd]; rewrite Hcls; [|exact Hlog].
        simpl. rewrite Hlog. reflexivity.
Qed.

(** X7. When [GraphDatabase.driver] itself raises, [connect] raises the same
    exception and stores nothing: [self._driver] stays [None], no driver or
    session object has been created and the store has not been asked, so the
    next call starts from the beginning. *)
Theorem connect_stores_nothing_when_driver_creation_fails (w : world) (e : exn) :
  _driver (self w) = None ->
  driver_error (uri (self w)) (user (self w)) (password (self w)) = Some e ->
  fst (connect w) = Raise e
  /\ self (snd (connect w)) = self w
  /\ drivers (snd (connect w)) = drivers w
  /\ sessions (snd (connect w)) = sessions w
  /\ store (snd (connect w)) = store w
  /\ fst (connect (snd (connect w))) = Raise e.
Proof.
  intros Hdrv He. rewrite (connect_driver_error w e Hdrv He).
  assert (H : forall w0 : world,
             self w0 = self w -> fst (connect w0) = Raise e).
  { intros w0 Hs. rewrite (connect_driver_error w0 e).
    - apply connect_raises_frame.
    - rewrite Hs. exact Hdrv.
    - rewrite Hs. exact He. }
  unfold connect_raises.
  destruct (is_ServiceUnavailable_or_AuthError e); cbn [fst snd];
    repeat split; apply H; reflexivity.
Qed.

(** X8. Two ways for the probe to fail that the [except] clause does not
    catch.  When the store answers the probe with no row, [connect] raises
    the [TypeError] of subscripting [None]; when the one row it answers with
    has no column [test], [connect] raises [KeyError]. Neither is logged, and
    in both cases the driver stays in [self._driver]. *)
Theorem connect_probe_without_value (w : world) :
  _driver (self w) = None ->
  driver_error (uri (self w)) (user (self w)) (password (self w)) = None ->
  (forall st,
      server_run (mk_driver (uri (self w)) (user (self w)) (password (self w)) true)
                 (database (self w)) "RETURN 1 AS test" [] (store w)
      = (Return [], st) ->
      fst (connect w) = Raise (TypeError "'NoneType' object is not subscriptable")
      /\ log (snd (connect w)) = log w
      /\ _driver (self (snd (connect w))) = Some (length (drivers w)))
  /\ (forall row st,
        server_run (mk_driver (uri (self w)) (user (self w)) (password (self w)) true)
                   (database (self w)) "RETURN 1 AS test" [] (store w)
        = (Return [row], st) ->
        dict_get "test" row = None ->
        fst (connect w) = Raise (KeyError "test")
        /\ log (snd (connect w)) = log w
        /\ _driver (self (snd (connect w))) = Some (length (drivers w))).
Proof.
  intros Hdrv He.
  rewrite (connect_fresh w Hdrv He).
  rewrite (connection_test_unfold _ _ _ (new_driver_lookup w)).
  simpl self. simpl database. simpl store.
  split.
  - intros st Hrun. rewrite Hrun. repeat split.
  - intros row st Hrun Hget. rewrite Hrun. cbn [head]. rewrite Hget. repeat split.
Qed.

(** What [close] does to a stored driver. *)
Lemma close_stored (w : world) (d : Driver) :
  _driver (self w) = Some d ->
  close w
  = (Return tt,
     set_log (log w ++ [(INFO, "Closed Neo4j connection")])
       (set_self (mk_db (_initialized (self w)) (uri (self w)) (user (self w))
                        (password (self w)) (database (self w)) None)
          (set_drivers
             (alter (fun o => mk_driver (d_uri o) (d_user o) (d_password o) false)
                    d (drivers w)) w))).
Proof.
  intros H. unfold close, bind, get_self. rewrite H. reflexivity.
Qed.

Lemma close_none (w : world) :
  _driver (self w) = None -> close w = (Return tt, w).
Proof.
  intros H. unfold close, bind, get_self. rewrite H. reflexivity.
Qed.

(** X9. [close] never raises and leaves no driver in [self._driver].  The
    driver that was stored is closed; every other driver, the sessions and
    the store are as before; without a stored driver nothing changes at all,
    so a second [close] is a no-op. *)
Theorem close_releases_the_driver (w : world) :
  fst (close w) = Return tt
  /\ _driver (self (snd (close w))) = None
  /\ (forall d, _driver (self w) = Some d -> driver_is_open d (snd (close w)) = false)
  /\ (forall d, _driver (self w) <> Some d ->
                drivers (snd (close w)) !! d = drivers w !! d)
  /\ sessions (snd (close w)) = sessions w
  /\ store (snd (close w)) = store w
  /\ (_driver (self w) = None -> snd (close w) = w)
  /\ close (snd (close w)) = (Return tt, snd (close w)).
Proof.
  destruct (_driver (self w)) as [d|] eqn:Hdrv.
  - rewrite (close_stored w d Hdrv). cbn [fst snd].
    split; [reflexivity|]. split; [reflexivity|]. split.
    { intros d0 [= <-]. unfold driver_is_open. simpl.
      rewrite list_lookup_alter_eq. destruct (_ !! _); reflexivity. }
    split.
    { intros d0 Hne. simpl. apply list_lookup_alter_ne. congruence. }
    split; [reflexivity|]. split; [reflexivity|]. split; [discriminate|].
    apply close_none. reflexivity.
  - rewrite (close_none w Hdrv). cbn [fst snd].
    split; [reflexivity|]. split; [exact Hdrv|]. split; [discriminate|].
    split; [reflexivity|]. split; [reflexivity|]. split; [reflexivity|].
    split; [reflexivity|]. apply close_none, Hdrv.
Qed.

Lemma close_stored_effects (w : world) (d : Driver) :
  _driver (self w) = Some d ->
  _driver (self (snd (close w))) = None
  /\ driver_is_open d (snd (close w)) = false
  /\ length (drivers (snd (close w))) = length (drivers w).
Proof.
  intros Hdrv. rewrite (close_stored w d Hdrv). cbn [snd].
  split; [reflexivity|]. split.
  - unfold driver_is_open. simpl.
    rewrite list_lookup_alter_eq. destruct (_ !! _); reflexivity.
  - simpl. apply length_alter.
Qed.

(** X10. After [close], [connect] establishes a connection again, and it is a
    new one: the driver it returns is another object than the one that was
    closed, the old one stays closed, and the new one is open and stored. *)
Theorem connect_after_close_creates_a_new_driver (w w2 : world) (d d' : Driver)
        (dr : driver_obj) :
  _driver (self w) = Some d ->
  drivers w !! d = Some dr ->
  connect (snd (close w)) = (Return d', w2) ->
  d' = length (drivers w)
  /\ d' <> d
  /\ driver_is_open d w2 = false
  /\ driver_is_open d' w2 = true
  /\ _driver (self w2) = Some d'.
Proof.
  intros Hdrv Hd Hc.
  assert (Hlt : d < length (drivers w)) by (apply lookup_lt_is_Some; eauto).
  destruct (close_stored_effects w d Hdrv) as (Hnone & Hclosed & Hlen).
  destruct (connect_creates_one_driver _ w2 d' Hnone Hc) as [Heq Hdrvs].
  split; [rewrite <- Hlen; exact Heq|]. split; [lia|]. split.
  - unfold driver_is_open in *. rewrite Hdrvs.
    rewrite lookup_app_l by (rewrite Hlen; exact Hlt). exact Hclosed.
  - split; [|apply (connect_returns_stored _ w2 d' Hc)].
    unfold driver_is_open. rewrite Hdrvs, Heq.
    rewrite lookup_app_r by lia.
    replace (length (drivers (snd (close w))) - length (drivers (snd (close w))))
      with 0 by lia.
    reflexivity.
Qed.

(** ** The query executor, further *)

(** [fetch_all] and [fetch_one] once [connect] has returned a driver that
    exists, whatever the store answers. *)
Lemma fetch_all_unfold (query : string) (params : option pydict)
      (w w1 : world) (d : Driver) (dr : driver_obj) :
  connect w = (Return d, w1) ->
  drivers w1 !! d = Some dr ->
  fetch_all query params w
  = match server_run dr (database (self w1)) query (or_empty params) (store w1) with
    | (Return rows, st) =>
        (Return (map record_data rows), set_store st (with_closed_session d w1))
    | (Raise e, st) => (Raise e, set_store st (with_closed_session d w1))
    end.
Proof.
  intros Hc Hd. unfold fetch_all.
  rewrite (get_session_unfold _ w w1 d Hc).
  unfold bind at 1 3. rewrite (session_run_new d dr w1 _ _ Hd).
  destruct (server_run dr (database (self w1)) query (or_empty params) (store w1))
    as [[rows|e] st].
  - unfold bind, result_records. simpl r_session.
    rewrite new_session_is_open. simpl r_records. unfold ret. cbn [fst snd].
    rewrite with_closed_session_is_closed. reflexivity.
  - cbn [fst snd]. rewrite with_closed_session_is_closed. reflexivity.
Qed.

Lemma fetch_one_unfold (query : string) (params : option pydict)
      (w w1 : world) (d : Driver) (dr : driver_obj) :
  connect w = (Return d, w1) ->
  drivers w1 !! d = Some dr ->
  fetch_one query params w
  = match server_run dr (database (self w1)) query (or_empty params) (store w1) with
    | (Return rows, st) =>
        (Return (match head rows with
                 | Some r => if record_truthy r then Some (record_data r) else None
                 | None => None
                 end),
         set_store st (with_closed_session d w1))
    | (Raise e, st) => (Raise e, set_store st (with_closed_session d w1))
    end.
Proof.
  intros Hc Hd. unfold fetch_one.
  rewrite (get_session_unfold _ w w1 d Hc).
  unfold bind at 1 3. rewrite (session_run_new d dr w1 _ _ Hd).
  destruct (server_run dr (database (self w1)) query (or_empty params) (store w1))
    as [[rows|e] st].
  - unfold result_single, bind, result_records. simpl r_session.
    rewrite new_session_is_open. simpl r_records. unfold ret. cbn [fst snd].
    rewrite with_closed_session_is_closed. reflexivity.
  - cbn [fst snd]. rewrite with_closed_session_is_closed. reflexivity.
Qed.

Lemma closed_session_consistent (w1 : world) (d : Driver) (st : Store) :
  consistent w1 -> consistent (set_store st (with_closed_session d w1)).
Proof.
  apply (consistent_closed_session w1 _ d (database (self w1))); reflexivity.
Qed.

Lemma connect_raises_consistent (w w1 : world) (e : exn) :
  consistent w -> connect w = (Raise e, w1) -> consistent w1.
Proof.
  intros Hw Hc. pose proof (connect_keeps_consistent w Hw) as H.
  rewrite Hc in H. exact H.
Qed.

Lemma execute_query_keeps_consistent (query : string) (params : option pydict) :
  keeps_consistent (@execute_query Store client query params).
Proof.
  intros w Hw. destruct (connect w) as [[d|e] w1] eqn:Hc.
  - destruct (connect_returns_open_driver w w1 d Hw Hc) as [H1 (dr & Hd & _)].
    rewrite (execute_query_unfold query params w w1 d dr Hc Hd).
    destruct (server_run dr (database (self w1)) query (or_empty params) (store w1))
      as [[rows|e] st]; cbn [snd]; apply closed_session_consistent, H1.
  - unfold execute_query. rewrite (get_session_connect_raises _ w w1 e Hc).
    apply (connect_raises_consistent w w1 e Hw Hc).
Qed.

Lemma fetch_all_keeps_consistent (query : string) (params : option pydict) :
  keeps_consistent (@fetch_all Store client query params).
Proof.
  intros w Hw. destruct (connect w) as [[d|e] w1] eqn:Hc.
  - destruct (connect_returns_open_driver w w1 d Hw Hc) as [H1 (dr & Hd & _)].
    rewrite (fetch_all_unfold query params w w1 d dr Hc Hd).
    destruct (server_run dr (database (self w1)) query (or_empty params) (store w1))
      as [[rows|e] st]; cbn [snd]; apply closed_session_consistent, H1.
  - unfold fetch_all. rewrite (get_session_connect_raises _ w w1 e Hc).
    apply (connect_raises_consistent w w1 e Hw Hc).
Qed.

Lemma fetch_one_keeps_consistent (query : string) (params : option pydict) :
  keeps_consistent (@fetch_one Store client query params).
Proof.
  intros w Hw. destruct (connect w) as [[d|e] w1] eqn:Hc.
  - destruct (connect_returns_open_driver w w1 d Hw Hc) as [H1 (dr & Hd & _)].
    rewrite (fetch_one_unfold query params w w1 d dr Hc Hd).
    destruct (server_run dr (database (self w1)) query (or_empty params) (store w1))
      as [[rows|e] st]; cbn [snd]; apply closed_session_consistent, H1.
  - unfold fetch_one. rewrite (get_session_connect_raises _ w w1 e Hc).
    apply (connect_raises_consistent w w1 e Hw Hc).
Qed.

Lemma apply_constraint_keeps_consistent (c : string) :
  keeps_consistent (@apply_constraint Store client c).
Proof.
  intros w Hw. destruct (connect w) as [[d|e] w1] eqn:Hc.
  - destruct (connect_returns_open_driver w w1 d Hw Hc) as [H1 (dr & Hd & _)].
    rewrite (apply_constraint_eq c w w1 d dr Hc Hd).
    pose proof (closed_session_consistent w1 d) as Hclosed.
    destruct (server_run dr (database (self w1)) c [] (store w1)) as [[rows|e] st].
    + cbn [snd]. apply (consistent_same (set_store st (with_closed_session d w1)));
        [reflexivity..|apply Hclosed, H1].
    + destruct (is_Exception e); cbn [snd]; [|apply Hclosed, H1].
      apply (consistent_same (set_store st (with_closed_session d w1)));
        [reflexivity..|apply Hclosed, H1].
  - pose proof (connect_raises_consistent w w1 e Hw Hc) as H1.
    unfold apply_constraint, try_except, bind, execute_query.
    rewrite (get_session_connect_raises _ w w1 e Hc).
    destruct (is_Exception e); [|exact H1].
    apply (consistent_same w1); [reflexivity..|exact H1].
Qed.

Lemma for_each_constraint_keeps_consistent (cs : list string) :
  keeps_consistent (@for_each_constraint Store client cs).
Proof.
  induction cs as [|c rest IH]; intros w Hw; [exact Hw|].
  pose proof (apply_constraint_keeps_consistent c w Hw) as H1.
  simpl for_each_constraint. unfold bind.
  destruct (apply_constraint c w) as [[[]|e] w2]; cbn [snd] in *.
  - apply IH, H1.
  - exact H1.
Qed.

Lemma close_keeps_consistent : keeps_consistent (@close Store).
Proof.
  intros w [H1 H2]. destruct (_driver (self w)) as [d|] eqn:Hdrv.
  - rewrite (close_stored w d Hdrv). split; [|exact H2].
    intros d0 Hd0. discriminate Hd0.
  - rewrite (close_none w Hdrv). cbn [snd]. split; [|exact H2].
    intros d0 Hd0. rewrite Hdrv in Hd0. discriminate Hd0.
Qed.

(** X11. Every method of [Neo4jDatabase] keeps the world consistent,
    whether it returns or raises: afterwards no session is open, and the
    driver in [self._driver], if there is one, exists and is open.  So no
    method leaks a session or leaves a closed driver behind for the next
    one. *)
Theorem methods_keep_the_world_consistent (w : world) :
  consistent w ->
  consistent (snd (connect w))
  /\ consistent (snd (close w))
  /\ (forall query params,
        consistent (snd (execute_query query params w))
        /\ consistent (snd (fetch_all query params w))
        /\ consistent (snd (fetch_one query params w)))
  /\ consistent (snd (create_constraints w)).
Proof.
  intros Hw.
  split; [apply connect_keeps_consistent, Hw|].
  split; [apply close_keeps_consistent, Hw|].
  split.
  - intros query params.
    split; [apply execute_query_keeps_consistent, Hw|].
    split; [apply fetch_all_keeps_consistent, Hw|].
    apply fetch_one_keeps_consistent, Hw.
  - apply for_each_constraint_keeps_consistent, Hw.
Qed.

(** X12. From a consistent world, the driver that [connect] returns is
    usable: it is the one stored in [self._driver], and it is open. *)
Theorem connect_returns_a_usable_driver (w w1 : world) (d : Driver) :
  consistent w ->
  connect w = (Return d, w1) ->
  _driver (self w1) = Some d /\ driver_is_open d w1 = true.
Proof.
  intros Hw Hc. split; [apply (connect_returns_stored w w1 d Hc)|].
  destruct (connect_returns_open_driver w w1 d Hw Hc) as [_ (dr & Hd & Hopen)].
  unfold driver_is_open. rewrite Hd. exact Hopen.
Qed.

(** X13. What the store raises for a query comes out of [execute_query],
    [fetch_all] and [fetch_one] as it is: none of them catches, wraps or logs
    it, and each has closed its session before the exception reaches the
    caller. *)
Theorem store_errors_pass_through (query : string) (params : option pydict)
        (w w1 : world) (d : Driver) (dr : driver_obj) (e : exn) (st : Store) :
  connect w = (Return d, w1) ->
  drivers w1 !! d = Some dr ->
  server_run dr (database (self w1)) query (or_empty params) (store w1)
  = (Raise e, st) ->
  fst (execute_query query params w) = Raise e
  /\ fst (fetch_all query params w) = Raise e
  /\ fst (fetch_one query params w) = Raise e
  /\ log (snd (fetch_all query params w)) = log w1
  /\ session_is_open (length (sessions w1)) (snd (fetch_all query params w)) = false
  /\ snd (execute_query query params w) = snd (fetch_all query params w)
  /\ snd (fetch_one query params w) = snd (fetch_all query params w).
Proof.
  intros Hc Hd Hrun.
  rewrite (execute_query_unfold query params w w1 d dr Hc Hd).
  rewrite (fetch_all_unfold query params w w1 d dr Hc Hd).
  rewrite (fetch_one_unfold query params w w1 d dr Hc Hd).
  rewrite Hrun. cbn [fst snd].
  repeat split.
  unfold session_is_open, with_closed_session. simpl.
  rewrite lookup_app_r by lia.
  replace (length (sessions w1) - length (sessions w1)) with 0 by lia.
  reflexivity.
Qed.

(** X14. The three ways to run a query differ only in what they hand back.
    For a store answer of at most one row, [fetch_one] returns the first
    element of the list that [fetch_all] returns, or [None] when that list is
    empty; and whatever the answer, the three leave the same world behind. *)
Theorem fetch_one_is_the_head_of_fetch_all (query : string) (params : option pydict)
        (w w1 : world) (d : Driver) (dr : driver_obj)
        (rows : list Neo4jRecord) (st : Store) :
  connect w = (Return d, w1) ->
  drivers w1 !! d = Some dr ->
  server_run dr (database (self w1)) query (or_empty params) (store w1)
  = (Return rows, st) ->
  length rows <= 1 ->
  Forall (fun row => row <> []) rows ->
  fst (fetch_all query params w) = Return (map record_data rows)
  /\ fst (fetch_one query params w) = Return (head (map record_data rows))
  /\ snd (fetch_one query params w) = snd (fetch_all query params w)
  /\ snd (execute_query query params w) = snd (fetch_all query params w).
Proof.
  intros Hc Hd Hrun Hlen Hrows.
  rewrite (execute_query_unfold query params w w1 d dr Hc Hd).
  rewrite (fetch_all_unfold query params w w1 d dr Hc Hd).
  rewrite (fetch_one_unfold query params w w1 d dr Hc Hd).
  rewrite Hrun. cbn [fst snd].
  split; [reflexivity|]. split; [|split; reflexivity].
  destruct rows as [|row rest]; [reflexivity|].
  inversion Hrows as [|? ? Hrow _]; subst.
  destruct row as [|kv row']; [contradiction|]. reflexivity.
Qed.

(** ** Constraint creation, further *)

(** What the loop leaves in the log and among the sessions when every
    statement goes through. *)
Lemma for_each_constraint_applied (rest : list string) :
  forall (c : string) (w w1 : world) (d : Driver) (dr : driver_obj),
    connect w = (Return d, w1) ->
    drivers w1 !! d = Some dr ->
    fst (issue_all dr (database (self w1)) (c :: rest) (store w1)) = None ->
    log (snd (for_each_constraint (c :: rest) w))
    = (log w1 ++ map (fun s => (INFO, ("Applied constraint: " ++ s)%string)) (c :: rest))%list
    /\ sessions (snd (for_each_constraint (c :: rest) w))
       = (sessions w1
          ++ repeat (mk_session d (database (self w1)) false) (length (c :: rest)))%list.
Proof.
  induction rest as [|c' rest IH]; intros c w w1 d dr Hc Hd Hall.
  - simpl for_each_constraint. unfold bind.
    rewrite (apply_constraint_eq c w w1 d dr Hc Hd).
    simpl issue_all in Hall.
    destruct (server_run dr (database (self w1)) c [] (store w1)) as [[rows|e] st];
      [|discriminate].
    split; reflexivity.
  - change (for_each_constraint (c :: c' :: rest))
      with (bind (apply_constraint c) (fun _ => for_each_constraint (c' :: rest))).
    change (issue_all dr (database (self w1)) (c :: c' :: rest) (store w1))
      with (match server_run dr (database (self w1)) c [] (store w1) with
            | (Return _, st') => issue_all dr (database (self w1)) (c' :: rest) st'
            | (Raise e, st') => (Some e, st')
            end) in Hall.
    unfold bind. rewrite (apply_constraint_eq c w w1 d dr Hc Hd).
    destruct (server_run dr (database (self w1)) c [] (store w1)) as [[rows|e] st];
      [|discriminate].
    set (w2 := set_log (log w1 ++ [(INFO, ("Applied constraint: " ++ c)%string)])
                       (set_store st (with_closed_session d w1))).
    assert (Hc2 : connect w2 = (Return d, w2)).
    { apply connect_stored. apply (connect_returns_stored w w1 d Hc). }
    destruct (IH c' w2 w2 d dr Hc2 Hd Hall) as [Hlog Hsess].
    rewrite Hlog, Hsess. split.
    + simpl. rewrite <- app_assoc. reflexivity.
    + simpl. rewrite <- app_assoc. reflexivity.
Qed.

(** X15. What [create_constraints] leaves behind, once [connect] has
    returned a driver.  When the store accepts the three statements, the call
    returns, has logged one line "Applied constraint: ..." per statement in
    their order, and has opened and closed one session per statement.  When
    the store refuses the first statement, the call raises that exception
    after one error line and one session, and the store is as that statement
    left it. *)
Theorem create_constraints_effects (w w1 : world) (d : Driver) (dr : driver_obj) :
  connect w = (Return d, w1) ->
  drivers w1 !! d = Some dr ->
  (fst (issue_all dr (database (self w1)) constraints (store w1)) = None ->
   fst (create_constraints w) = Return tt
   /\ log (snd (create_constraints w))
      = (log w1 ++ map (fun s => (INFO, ("Applied constraint: " ++ s)%string)) constraints)%list
   /\ sessions (snd (create_constraints w))
      = (sessions w1 ++ repeat (mk_session d (database (self w1)) false) 3)%list)
  /\ (forall e st,
        server_run dr (database (self w1))
          "CREATE CONSTRAINT rule_id IF NOT EXISTS FOR (r:Rule) REQUIRE r.rule_id IS UNIQUE"
          [] (store w1)
        = (Raise e, st) ->
        is_Exception e = true ->
        fst (create_constraints w) = Raise e
        /\ log (snd (create_constraints w))
           = (log w1 ++ [(ERROR, ("Failed to create constraint: " ++ exn_str e)%string)])%list
        /\ sessions (snd (create_constraints w))
           = (sessions w1 ++ [mk_session d (database (self w1)) false])%list
        /\ store (snd (create_constraints w)) = st).
Proof.
  intros Hc Hd. split.
  - intros Hall.
    destruct (create_constraints_issues w w1 d dr Hc Hd) as (Hf & _).
    rewrite Hall in Hf. split; [exact Hf|].
    unfold create_constraints, constraints in *.
    apply (for_each_constraint_applied _ _ w w1 d dr Hc Hd Hall).
  - intros e st Hrun Hexc.
    assert (Heq : create_constraints w
                  = (Raise e,
                     set_log (log w1 ++ [(ERROR, ("Failed to create constraint: "
                                                   ++ exn_str e)%string)])
                             (set_store st (with_closed_session d w1)))).
    { unfold create_constraints, constraints.
      simpl for_each_constraint. unfold bind at 1.
      rewrite (apply_constraint_eq _ w w1 d dr Hc Hd), Hrun, Hexc. reflexivity. }
    rewrite Heq. repeat split.
Qed.

(** ** Concurrent callers, further *)

(** The probe creates no driver and closes none, also on a driver that does
    not exist. *)
Lemma connection_test_drivers (d : Driver) (w : world) :
  drivers (snd (connection_test d w)) = drivers w.
Proof.
  destruct (drivers w !! d) as [dr|] eqn:Hd.
  - apply (connection_test_effects d dr w Hd).
  - unfold connection_test, bind, get_self, driver_session, try_finally, session_run.
    fold (with_new_session d w). rewrite new_session_lookup. simpl.
    rewrite Hd. reflexivity.
Qed.

Lemma leave_connect_effects (e : exn) (w : world) :
  drivers (snd (leave_connect e w)) = drivers w
  /\ pending (fst (leave_connect e w)) = 0.
Proof.
  rewrite leave_connect_is_connect_raises. split; [|reflexivity].
  apply connect_raises_frame.
Qed.

(** A step creates a driver only by taking a call past the creation. *)
Lemma thread_step_bound (pc : connect_pc) (w : world) :
  length (drivers (snd (thread_step pc w))) + pending (fst (thread_step pc w))
  <= length (drivers w) + pending pc.
Proof.
  destruct pc as [| | | |r].
  - unfold thread_step. destruct (_driver (self w)); simpl; lia.
  - unfold thread_step, bind, GraphDatabase_driver.
    destruct (driver_error (uri (self w)) (user (self w)) (password (self w))) as [e|].
    + destruct (leave_connect_effects e w) as [-> ->]. simpl. lia.
    + simpl. rewrite length_app. simpl. lia.
  - unfold thread_step. destruct (_driver (self w)) as [d|].
    + pose proof (connection_test_drivers d w) as Hd.
      destruct (connection_test d w) as [[[]|e] w1]; cbn [snd] in Hd.
      * simpl. rewrite Hd. lia.
      * destruct (leave_connect_effects e w1) as [-> ->]. rewrite Hd. simpl. lia.
    + destruct (leave_connect_effects
                  (OtherError "AttributeError"
                              "'NoneType' object has no attribute 'session'") w)
        as [-> ->].
      simpl. lia.
  - simpl. lia.
  - simpl. lia.
Qed.

Lemma pending_total_insert (ts : list connect_pc) :
  forall (i : nat) (pc pc' : connect_pc),
    ts !! i = Some pc ->
    pending_total (<[i:=pc']> ts) + pending pc = pending_total ts + pending pc'.
Proof.
  induction ts as [|a ts IH]; intros i pc pc' Hi; [discriminate|].
  destruct i as [|i]; simpl in *.
  - inversion Hi; subst. lia.
  - pose proof (IH i pc pc' Hi). lia.
Qed.

Lemma sched_step_bound (ts : list connect_pc) (w : world) (i : nat) :
  length (drivers (snd (sched_step (ts, w) i))) + pending_total (fst (sched_step (ts, w) i))
  <= length (drivers w) + pending_total ts.
Proof.
  destruct (ts !! i) as [pc|] eqn:Hi.
  - rewrite (sched_step_at ts i pc w Hi). cbn [fst snd].
    pose proof (thread_step_bound pc w).
    pose proof (pending_total_insert ts i pc (fst (thread_step pc w)) Hi).
    lia.
  - unfold sched_step. cbn [fst snd]. rewrite Hi. simpl. lia.
Qed.

Lemma run_schedule_bound (schedule : list nat) :
  forall (ts : list connect_pc) (w : world),
    length (drivers (snd (run_schedule schedule (ts, w))))
    + pending_total (fst (run_schedule schedule (ts, w)))
    <= length (drivers w) + pending_total ts.
Proof.
  induction schedule as [|i schedule IH]; intros ts w; [simpl; lia|].
  change (run_schedule (i :: schedule) (ts, w))
    with (run_schedule schedule (sched_step (ts, w) i)).
  pose proof (sched_step_bound ts w i) as Hstep.
  destruct (sched_step (ts, w) i) as [ts' w'].
  pose proof (IH ts' w'). cbn [fst snd] in Hstep. lia.
Qed.

Lemma pending_total_repeat (n : nat) : pending_total (repeat AtCheck n) = n.
Proof. induction n as [|n IH]; [reflexivity|]. simpl. rewrite IH. reflexivity. Qed.

(** X16. However the steps of [n] concurrent calls of [connect] are
    interleaved, and whatever the store answers, the calls create at most [n]
    drivers between them: a call creates one driver at most. *)
Theorem concurrent_connects_create_at_most_one_driver_each
        (n : nat) (schedule : list nat) (w : world) :
  length (drivers (snd (run_schedule schedule (repeat AtCheck n, w))))
  <= length (drivers w) + n.
Proof.
  pose proof (run_schedule_bound schedule (repeat AtCheck n) w) as H.
  rewrite pending_total_repeat in H. lia.
Qed.

Lemma thread_step_settled (d : Driver) (pc : connect_pc) (w : world) :
  _driver (self w) = Some d ->
  settled d pc ->
  snd (thread_step pc w) = w /\ settled d (fst (thread_step pc w)).
Proof.
  intros Hdrv [ -> | [ -> | -> ] ]; unfold thread_step, settled; rewrite ?Hdrv;
    simpl; auto.
Qed.

Lemma sched_step_settled (d : Driver) (ts : list connect_pc) (w : world) (i : nat) :
  _driver (self w) = Some d ->
  Forall (settled d) ts ->
  snd (sched_step (ts, w) i) = w /\ Forall (settled d) (fst (sched_step (ts, w) i)).
Proof.
  intros Hdrv Hts. destruct (ts !! i) as [pc|] eqn:Hi.
  - rewrite (sched_step_at ts i pc w Hi). cbn [fst snd].
    assert (Hpc : settled d pc).
    { rewrite Forall_forall in Hts. apply Hts.
      apply list_elem_of_In, list_elem_of_lookup. eauto. }
    destruct (thread_step_settled d pc w Hdrv Hpc) as [Hw Hpc'].
    split; [exact Hw|]. apply Forall_insert; assumption.
  - unfold sched_step. cbn [fst snd]. rewrite Hi. split; [reflexivity|exact Hts].
Qed.

(** X17. Once a driver is stored, concurrent calls of [connect] are
    harmless however they are interleaved: they change nothing in the world
    (no driver is created, no probe runs), and every call that has finished
    has returned the stored driver. *)
Theorem concurrent_connects_after_the_first_share_the_driver
        (d : Driver) (n : nat) (schedule : list nat) (w : world) :
  _driver (self w) = Some d ->
  snd (run_schedule schedule (repeat AtCheck n, w)) = w
  /\ Forall (settled d) (fst (run_schedule schedule (repeat AtCheck n, w)))
  /\ (forall r, In (Finished r) (fst (run_schedule schedule (repeat AtCheck n, w))) ->
                r = Return (Some d)).
Proof.
  intros Hdrv.
  assert (H : forall ts, Forall (settled d) ts ->
                snd (run_schedule schedule (ts, w)) = w
                /\ Forall (settled d) (fst (run_schedule schedule (ts, w)))).
  { induction schedule as [|i schedule IH]; intros ts Hts; [split; [reflexivity|exact Hts]|].
    change (run_schedule (i :: schedule) (ts, w))
      with (run_schedule schedule (sched_step (ts, w) i)).
    destruct (sched_step_settled d ts w i Hdrv Hts) as [Hw Hts'].
    destruct (sched_step (ts, w) i) as [ts' w']. cbn [fst snd] in Hw, Hts'. subst w'.
    apply IH, Hts'. }
  assert (Hstart : Forall (settled d) (repeat AtCheck n)).
  { apply Forall_forall. intros pc Hpc. apply repeat_spec in Hpc. left. exact Hpc. }
  destruct (H _ Hstart) as [Hw Hts].
  split; [exact Hw|]. split; [exact Hts|].
  intros r Hr. rewrite Forall_forall in Hts.
  destruct (Hts _ Hr) as [Hpc|[Hpc|Hpc]]; try discriminate.
  inversion Hpc. reflexivity.
Qed.

End MoreDbFacts.

(** ** The further properties at work on the demonstration store *)

Lemma demo_start_consistent (st : Demo.store) : consistent (Demo.start st).
Proof. split; [intros d Hd; discriminate Hd|constructor]. Qed.

Lemma demo_reconnect :
  connect (snd (close demo_connected)) = (Return 1, demo_reconnected).
Proof. vm_compute. reflexivity. Qed.

Lemma connect_stores_nothing_witness :
  fst (@connect _ strict_client demo_start_without_scheme)
  = Raise (OtherError "ConfigurationError" "URI scheme not supported")
  /\ drivers (snd (@connect _ strict_client demo_start_without_scheme)) = []
  /\ _driver (self (snd (@connect _ strict_client demo_start_without_scheme))) = None.
Proof.
  destruct (connect_stores_nothing_when_driver_creation_fails (client := strict_client)
              demo_start_without_scheme
              (OtherError "ConfigurationError" "URI scheme not supported")
              eq_refl eq_refl) as (Hf & Hs & Hd & _).
  split; [exact Hf|]. split; [exact Hd|]. rewrite Hs. reflexivity.
Defined.

Lemma connect_probe_without_value_witness :
  fst (connect (Demo.start demo_mute))
  = Raise (TypeError "'NoneType' object is not subscriptable")
  /\ fst (connect (Demo.start demo_untested)) = Raise (KeyError "test")
  /\ log (snd (connect (Demo.start demo_untested))) = [].
Proof.
  split.
  - destruct (connect_probe_without_value (client := demo_client)
                (Demo.start demo_mute) eq_refl eq_refl) as [H _].
    exact (proj1 (H demo_mute eq_refl)).
  - destruct (connect_probe_without_value (client := demo_client)
                (Demo.start demo_untested) eq_refl eq_refl) as [_ H].
    destruct (H [("one", PInt 1)] demo_untested eq_refl eq_refl) as (Hf & Hl & _).
    split; [exact Hf|exact Hl].
Defined.

Lemma connect_after_close_witness :
  driver_is_open 0 demo_reconnected = false
  /\ driver_is_open 1 demo_reconnected = true
  /\ _driver (self demo_reconnected) = Some 1.
Proof.
  destruct (connect_after_close_creates_a_new_driver (client := demo_client)
              demo_connected demo_reconnected 0 1
              (mk_driver "bolt://localhost:7687" "neo4j" "password" true)
              eq_refl demo_driver demo_reconnect)
    as (_ & _ & Hold & Hnew & Hstored).
  split; [exact Hold|]. split; [exact Hnew|exact Hstored].
Defined.

Lemma methods_keep_the_world_consistent_witness :
  consistent (snd (create_constraints (Demo.start Demo.read_only)))
  /\ consistent (snd (fetch_one "MATCH (n) RETURN n" None (Demo.start Demo.healthy))).
Proof.
  split.
  - apply (methods_keep_the_world_consistent (client := demo_client)
             (Demo.start Demo.read_only) (demo_start_consistent Demo.read_only)).
  - apply (methods_keep_the_world_consistent (client := demo_client)
             (Demo.start Demo.healthy) (demo_start_consistent Demo.healthy)).
Defined.

Lemma connect_returns_a_usable_driver_witness :
  _driver (self demo_connected) = Some 0 /\ driver_is_open 0 demo_connected = true.
Proof.
  exact (connect_returns_a_usable_driver (client := demo_client)
           (Demo.start Demo.healthy) demo_connected 0
           (demo_start_consistent Demo.healthy) demo_connect).
Defined.

Lemma store_errors_pass_through_witness :
  fst (fetch_all "MATCH (n) RETURN n" None (Demo.start Demo.healthy))
  = Raise (ClientError "Invalid input")
  /\ fst (fetch_one "MATCH (n) RETURN n" None (Demo.start Demo.healthy))
     = Raise (ClientError "Invalid input")
  /\ session_is_open 1 (snd (fetch_all "MATCH (n) RETURN n" None (Demo.start Demo.healthy)))
     = false.
Proof.
  destruct (store_errors_pass_through (client := demo_client)
              "MATCH (n) RETURN n" None (Demo.start Demo.healthy) demo_connected 0
              (mk_driver "bolt://localhost:7687" "neo4j" "password" true)
              (ClientError "Invalid input") Demo.healthy
              demo_connect demo_driver eq_refl)
    as (_ & Hall & Hone & _ & Hclosed & _).
  split; [exact Hall|]. split; [exact Hone|exact Hclosed].
Defined.

Lemma fetch_one_is_the_head_of_fetch_all_witness :
  fst (fetch_all Demo.rule_by_id (Some [("rule_id", PStr "R001")]) (Demo.start Demo.healthy))
  = Return [[("rule_id", PStr "R001"); ("name", PStr "Income Validation")]]
  /\ fst (fetch_one Demo.rule_by_id (Some [("rule_id", PStr "R001")])
                    (Demo.start Demo.healthy))
     = Return (Some [("rule_id", PStr "R001"); ("name", PStr "Income Validation")]).
Proof.
  destruct (fetch_one_is_the_head_of_fetch_all (client := demo_client)
              Demo.rule_by_id (Some [("rule_id", PStr "R001")])
              (Demo.start Demo.healthy) demo_connected 0
              (mk_driver "bolt://localhost:7687" "neo4j" "password" true)
              [[("rule_id", PStr "R001"); ("name", PStr "Income Validation")]]
              Demo.healthy demo_connect demo_driver eq_refl
              ltac:(simpl; lia)
              ltac:(repeat constructor; discriminate))
    as (Hall & Hone & _).
  split; [exact Hall|exact Hone].
Defined.

Lemma create_constraints_effects_witness :
  log demo_constrained
  = [(INFO, "Connected to Neo4j at bolt://localhost:7687");
     (INFO, "Applied constraint: CREATE CONSTRAINT rule_id IF NOT EXISTS FOR (r:Rule) REQUIRE r.rule_id IS UNIQUE");
     (INFO, "Applied constraint: CREATE CONSTRAINT data_element_id IF NOT EXISTS FOR (d:DataElement) REQUIRE d.element_id IS UNIQUE");
     (INFO, "Applied constraint: CREATE CONSTRAINT category_name IF NOT EXISTS FOR (c:Category) REQUIRE c.name IS UNIQUE")]
  /\ length (sessions demo_constrained) = 4.
Proof.
  destruct (create_constraints_effects (client := demo_client)
              (Demo.start Demo.healthy) demo_connected 0
              (mk_driver "bolt://localhost:7687" "neo4j" "password" true)
              demo_connect demo_driver) as [H _].
  destruct (H eq_refl) as (_ & Hlog & Hsess).
  rewrite demo_create_constraints in Hlog, Hsess. cbn [snd] in Hlog, Hsess.
  split; [rewrite Hlog; reflexivity|rewrite Hsess; reflexivity].
Defined.

Lemma concurrent_connects_after_the_first_witness :
  run_schedule [1; 0; 2; 1; 0; 2] ([AtCheck; AtCheck; AtCheck], demo_connected)
  = ([Finished (Return (Some 0)); Finished (Return (Some 0)); Finished (Return (Some 0))],
     demo_connected).
Proof.
  destruct (concurrent_connects_after_the_first_share_the_driver (client := demo_client)
              0 3 [1; 0; 2; 1; 0; 2] demo_connected eq_refl) as (Hw & _ & _).
  change [AtCheck; AtCheck; AtCheck] with (repeat AtCheck 3).
  rewrite (surjective_pairing
             (run_schedule [1; 0; 2; 1; 0; 2] (repeat AtCheck 3, demo_connected))).
  rewrite Hw. reflexivity.
Defined.
